(** * psm_utils.peptidoform: composition, mass and rewriting of peptidoforms

    A shallow embedding of [psm_utils/peptidoform.py].  Python exceptions
    are values of an error monad, the [properties] dict is a record, the
    dicts built by the code ([fixed_rules], [rule_dict], the renaming
    [mapping], atomic compositions) are finite maps, and the two methods
    that rewrite the object thread it as explicit state. *)

From Stdlib Require Import ZArith Lia.
From stdpp Require Import gmap strings list fin_maps.

Local Open Scope Z_scope.
Local Open Scope list_scope.

(** ** Exceptions *)

(** The exception classes the module raises, catches or declares, and the
    builtin classes above them. *)
Inductive pyclass :=
  | BaseException
  | Exception
  | RuntimeError
  | NotImplementedError
  | TypeError
  | LookupError
  | KeyError
  | AttributeError
  | PSMUtilsException
  | PeptidoformException
  | AmbiguousResidueException
  | ModificationException.

#[global] Instance pyclass_eq_dec : EqDecision pyclass.
Proof. solve_decision. Defined.

(** The builtin part of the hierarchy, as Python fixes it. *)
Definition builtin_base (c : pyclass) : option pyclass :=
  match c with
  | BaseException => None
  | Exception => Some BaseException
  | RuntimeError => Some Exception
  | NotImplementedError => Some RuntimeError
  | TypeError => Some Exception
  | LookupError => Some Exception
  | KeyError => Some LookupError
  | AttributeError => Some Exception
  | _ => None
  end.

(** Modelled from the spec: [psm_utils/exceptions.py] is not among the
    sources.  The spec calls [PSMUtilsException] the single domain-error
    category, above the module's own error kinds; it is taken as a direct
    subclass of [Exception]. *)
Definition PSMUtilsException_base : pyclass := Exception.

(** [class PeptidoformException(PSMUtilsException)],
    [class AmbiguousResidueException(PeptidoformException)],
    [class ModificationException(PeptidoformException)]. *)
Definition base (c : pyclass) : option pyclass :=
  match c with
  | PSMUtilsException => Some PSMUtilsException_base
  | PeptidoformException => Some PSMUtilsException
  | AmbiguousResidueException => Some PeptidoformException
  | ModificationException => Some PeptidoformException
  | _ => builtin_base c
  end.

Fixpoint mro_from (fuel : nat) (c : pyclass) : list pyclass :=
  match fuel with
  | O => []
  | S fuel =>
      c :: match base c with
           | Some b => mro_from fuel b
           | None => []
           end
  end.

(** The class and its ancestors; no chain is longer than six. *)
Definition mro (c : pyclass) : list pyclass := mro_from 8 c.

Definition issubclass (c d : pyclass) : bool := bool_decide (d ∈ mro c).

Record exn := Raise { exn_class : pyclass; exn_msg : string }.

#[global] Instance exn_eq_dec : EqDecision exn.
Proof. solve_decision. Defined.

(** ** The error monad *)

Inductive result (A : Type) :=
  | Ok (a : A)
  | Err (e : exn).
Arguments Ok {A} a.
Arguments Err {A} e.

Definition bind {A B} (c : result A) (k : A → result B) : result B :=
  match c with
  | Ok a => k a
  | Err e => Err e
  end.

Notation "'let*' x ':=' c 'in' k" := (bind c (fun x => k))
  (at level 10, x binder, c at level 100, k at level 200).

(** [try: body  except (AttributeError, KeyError): raise handler] *)
Definition is_lookup_failure (e : exn) : bool :=
  issubclass (exn_class e) AttributeError || issubclass (exn_class e) KeyError.

Definition except_lookup {A} (body : result A) (handler : exn) : result A :=
  match body with
  | Ok a => Ok a
  | Err e => if is_lookup_failure e then Err handler else Err e
  end.

(** The value of a computation that returned. *)
Definition ok_value {A} (c : result A) : option A :=
  match c with
  | Ok a => Some a
  | Err _ => None
  end.

(** Python truthiness of a value that is [None] or a list. *)
Definition truthy {A} (o : option (list A)) : bool :=
  match o with
  | Some (_ :: _) => true
  | _ => false
  end.

(** ** Atomic compositions

    [pyteomics.mass.Composition] is a dict from element symbols to
    integer counts.  Reading a missing element gives 0 and storing 0
    removes the element; [+=] runs [self[elem] += cnt] over the items of
    the right operand. *)
Abbreviation Composition := (gmap string Z).

Definition comp_getitem (c : Composition) (elem : string) : Z :=
  default 0 (c !! elem).

Definition comp_setitem (elem : string) (cnt : Z) (c : Composition)
    : Composition :=
  if decide (cnt = 0) then delete elem c else <[elem := cnt]> c.

Definition comp_add (self other : Composition) : Composition :=
  map_fold (λ elem cnt acc, comp_setitem elem (comp_getitem acc elem + cnt) acc)
           self other.

(** [comp = Composition(); for c in l: comp += c] *)
Definition comp_sum (l : list Composition) : Composition :=
  fold_left comp_add l ∅.

Definition nonzero (z : Z) : option Z :=
  if decide (z = 0) then None else Some z.

(** What [+=] does to the entry of one element. *)
Definition count_add (x y : option Z) : option Z :=
  match x, y with
  | _, None => x
  | Some a, Some b => nonzero (a + b)
  | None, Some b => nonzero b
  end.

(** ** Data model *)

(** Float arithmetic is kept abstract: nothing below assumes that it is
    associative or commutative. *)
Class MassArith (M : Type) := {
  madd : M → M → M;       (* float + float *)
  mmul_int : M → Z → M;   (* float * int *)
  mdiv_int : M → Z → M;   (* float / int *)
  mzero : M;              (* the 0 that the builtin sum() starts from *)
}.

(** A pyteomics modification tag: its label, and the two attributes that
    are resolved on access and may raise. *)
Record ModificationTag {M : Type} := {
  tag_value : string;
  tag_composition : result Composition;
  tag_mass : result M;
}.
Arguments ModificationTag : clear implicits.

(** A pyteomics [ModificationRule(modification_tag, targets)]. *)
Record ModificationRule {M : Type} := {
  modification_tag : ModificationTag M;
  targets : list string;
}.
Arguments ModificationRule : clear implicits.

Record ChargeState := { charge : Z }.

(** The [properties] dict, with the keys the module reads.  The parser
    delivers [fixed_modifications] as a list; [apply_fixed_modifications]
    sets it to [None]. *)
Record Properties {M : Type} := {
  n_term : option (list (ModificationTag M));
  c_term : option (list (ModificationTag M));
  unlocalized_modifications : list (ModificationTag M);
  labile_modifications : list (ModificationTag M);
  fixed_modifications : option (list (ModificationRule M));
  charge_state : option ChargeState;
  isotopes : list string;
}.
Arguments Properties : clear implicits.

(** One entry of [parsed_sequence]: the residue and its tags ([None] when
    the position carries none). *)
Abbreviation Position M := (string * option (list (ModificationTag M)))%type.

Record Peptidoform {M : Type} := {
  parsed_sequence : list (Position M);
  properties : Properties M;
}.
Arguments Peptidoform : clear implicits.

(** What the module imports: the pyteomics tables and functions, and the
    builtin [hash] on strings. *)
Class Environment (M : Type) := {
  std_aa_comp : gmap string Composition;
  std_aa_mass : gmap string M;
  nist_mass : gmap string (gmap Z (M * M));
  comp_mass : Composition → M;                       (* Composition.mass() *)
  parse : string → result (list (Position M) * Properties M);
  to_proforma : list (Position M) → Properties M → string;
  process_tag_tokens : string → result (ModificationTag M);
  py_hash : string → Z;
}.

Inductive pyvalue :=
  | PyStr (s : string)
  | PyInt (z : Z)
  | PyNone.

(** The right operand of [==]: a Peptidoform, or an object of another
    type with or without an attribute [proforma]. *)
Inductive pyobject {M : Type} :=
  | PeptidoformObject (p : Peptidoform M)
  | ForeignObject (proforma_attr : option pyvalue).
Arguments pyobject : clear implicits.

Definition set_parsed_sequence {M} (s : list (Position M)) (p : Peptidoform M)
    : Peptidoform M :=
  {| parsed_sequence := s; properties := properties p |}.

Definition set_n_term {M} (v : option (list (ModificationTag M)))
    (p : Peptidoform M) : Peptidoform M :=
  let props := properties p in
  {| parsed_sequence := parsed_sequence p;
     properties :=
       {| n_term := v; c_term := c_term props;
          unlocalized_modifications := unlocalized_modifications props;
          labile_modifications := labile_modifications props;
          fixed_modifications := fixed_modifications props;
          charge_state := charge_state props; isotopes := isotopes props |} |}.

Definition set_c_term {M} (v : option (list (ModificationTag M)))
    (p : Peptidoform M) : Peptidoform M :=
  let props := properties p in
  {| parsed_sequence := parsed_sequence p;
     properties :=
       {| n_term := n_term props; c_term := v;
          unlocalized_modifications := unlocalized_modifications props;
          labile_modifications := labile_modifications props;
          fixed_modifications := fixed_modifications props;
          charge_state := charge_state props; isotopes := isotopes props |} |}.

Definition set_unlocalized_modifications {M} (v : list (ModificationTag M))
    (p : Peptidoform M) : Peptidoform M :=
  let props := properties p in
  {| parsed_sequence := parsed_sequence p;
     properties :=
       {| n_term := n_term props; c_term := c_term props;
          unlocalized_modifications := v;
          labile_modifications := labile_modifications props;
          fixed_modifications := fixed_modifications props;
          charge_state := charge_state props; isotopes := isotopes props |} |}.

Definition set_labile_modifications {M} (v : list (ModificationTag M))
    (p : Peptidoform M) : Peptidoform M :=
  let props := properties p in
  {| parsed_sequence := parsed_sequence p;
     properties :=
       {| n_term := n_term props; c_term := c_term props;
          unlocalized_modifications := unlocalized_modifications props;
          labile_modifications := v;
          fixed_modifications := fixed_modifications props;
          charge_state := charge_state props; isotopes := isotopes props |} |}.

Definition set_fixed_modifications {M} (v : option (list (ModificationRule M)))
    (p : Peptidoform M) : Peptidoform M :=
  let props := properties p in
  {| parsed_sequence := parsed_sequence p;
     properties :=
       {| n_term := n_term props; c_term := c_term props;
          unlocalized_modifications := unlocalized_modifications props;
          labile_modifications := labile_modifications props;
          fixed_modifications := v;
          charge_state := charge_state props; isotopes := isotopes props |} |}.

(** The two exceptions that Python itself raises in this module. *)
Definition no_value_error : exn :=
  Raise AttributeError "'ModificationRule' object has no attribute 'value'".

Definition not_iterable_error : exn :=
  Raise TypeError "'NoneType' object is not iterable".

(** ** The Peptidoform class *)

Section Peptidoform.
Context {M : Type} `{!MassArith M} `{!Environment M}.

(** *** Construction, text, equality *)

Definition __init__ (proforma_sequence : string) : result (Peptidoform M) :=
  let* parsed := parse proforma_sequence in
  match isotopes (parsed.2) with
  | _ :: _ =>
      Err (Raise NotImplementedError
                 "Peptidoforms with isotopes are currently not supported.")
  | [] => Ok {| parsed_sequence := parsed.1; properties := parsed.2 |}
  end.

Definition proforma (self : Peptidoform M) : string :=
  to_proforma (parsed_sequence self) (properties self).

Definition __hash__ (self : Peptidoform M) : Z := py_hash (proforma self).

(** [o.proforma] *)
Definition getattr_proforma (o : pyobject M) : result pyvalue :=
  match o with
  | PeptidoformObject p => Ok (PyStr (proforma p))
  | ForeignObject (Some v) => Ok v
  | ForeignObject None =>
      Err (Raise AttributeError "object has no attribute 'proforma'")
  end.

(** [s == v] for a string [s] *)
Definition str_eq (s : string) (v : pyvalue) : bool :=
  match v with
  | PyStr t => bool_decide (s = t)
  | _ => false
  end.

(** [NotImplemented(msg)]: the constant [NotImplemented] is not callable. *)
Definition call_NotImplemented (msg : string) : result exn :=
  Err (Raise TypeError "'NotImplementedType' object is not callable").

Definition __eq__ (self : Peptidoform M) (__o : pyobject M) : result bool :=
  match getattr_proforma __o with
  | Ok v => Ok (str_eq (proforma self) v)
  | Err e =>
      if issubclass (exn_class e) AttributeError
      then let* raised := call_NotImplemented "Object is not a Peptidoform" in
           Err raised
      else Err e
  end.

Definition sequence (self : Peptidoform M) : string :=
  foldr (λ pos acc, pos.1 +:+ acc) "" (parsed_sequence self).

Definition precursor_charge (self : Peptidoform M) : option Z :=
  match charge_state (properties self) with
  | Some cs => Some (charge cs)
  | None => None   (* AttributeError on None, caught *)
  end.

(** *** The resolver, once for compositions and once for masses

    [sequential_composition]/[composition] and
    [sequential_theoretical_mass]/[theoretical_mass] are the same code up
    to the attribute read from a tag, the residue table, the addition and
    the word in the messages. *)
Section Resolver.
Context {V : Type}.
Variable what : string.
Variable v_add : V → V → V.
Variable tag_attr : ModificationTag M → result V.
Variable std_aa : gmap string V.
Variable n_start c_start : V.
Variable v_total : list V → V.

Definition unresolved_modification (tag : ModificationTag M) : exn :=
  Raise ModificationException
        ("Cannot resolve " +:+ what +:+ " for modification "
           +:+ tag_value tag +:+ ".").

(** What the [try] around a tag turns the tag's own exception into. *)
Definition wrapped (tag : ModificationTag M) (e : exn) : exn :=
  if is_lookup_failure e then unresolved_modification tag else e.

Definition unresolved_residue (aa : string) : exn :=
  Raise AmbiguousResidueException
        ("Cannot resolve " +:+ what +:+ " for amino acid " +:+ aa +:+ ".").

(** [for aa in rule.targets: fixed_rules[aa] = rule.modification_tag.attr]:
    the attribute is read once per target, outside any [try]. *)
Fixpoint record_targets (rule : ModificationRule M) (tgts : list string)
    (fixed_rules : gmap string V) : result (gmap string V) :=
  match tgts with
  | [] => Ok fixed_rules
  | aa :: rest =>
      let* v := tag_attr (modification_tag rule) in
      record_targets rule rest (<[aa := v]> fixed_rules)
  end.

Fixpoint record_rules (rules : list (ModificationRule M))
    (fixed_rules : gmap string V) : result (gmap string V) :=
  match rules with
  | [] => Ok fixed_rules
  | rule :: rest =>
      let* fixed_rules := record_targets rule (targets rule) fixed_rules in
      record_rules rest fixed_rules
  end.

(** [for rule in self.properties["fixed_modifications"]]: the property
    is iterated as it is, and [None] is not iterable. *)
Definition build_fixed_rules (fixed : option (list (ModificationRule M)))
    : result (gmap string V) :=
  match fixed with
  | Some rules => record_rules rules ∅
  | None => Err not_iterable_error
  end.

(** [for tag in tags: try: acc += tag.attr
     except (AttributeError, KeyError): raise ModificationException(..)] *)
Fixpoint add_tags (acc : V) (tags : list (ModificationTag M)) : result V :=
  match tags with
  | [] => Ok acc
  | tag :: rest =>
      let* v := except_lookup (tag_attr tag) (unresolved_modification tag) in
      add_tags (v_add acc v) rest
  end.

(** [if tags: for tag in tags: ...] *)
Definition add_optional_tags (acc : V)
    (tags : option (list (ModificationTag M))) : result V :=
  if truthy tags then add_tags acc (default [] tags) else Ok acc.

(** The body of the loop over [parsed_sequence]. *)
Definition position_value (fixed_rules : gmap string V) (pos : Position M)
    : result V :=
  let '(aa, tags) := pos in
  let* position :=
    match std_aa !! aa with
    | Some v => Ok v
    | None => Err (unresolved_residue aa)
    end in
  let position :=
    match fixed_rules !! aa with
    | Some v => v_add position v
    | None => position
    end in
  add_optional_tags position tags.

Fixpoint position_values (fixed_rules : gmap string V)
    (seq : list (Position M)) : result (list V) :=
  match seq with
  | [] => Ok []
  | pos :: rest =>
      let* v := position_value fixed_rules pos in
      let* vs := position_values fixed_rules rest in
      Ok (v :: vs)
  end.

Definition sequential (self : Peptidoform M) : result (list V) :=
  let props := properties self in
  let* fixed_rules := build_fixed_rules (fixed_modifications props) in
  let* n := add_optional_tags n_start (n_term props) in
  let* residues := position_values fixed_rules (parsed_sequence self) in
  let* c := add_optional_tags c_start (c_term props) in
  Ok (n :: residues ++ [c]).

Definition total (self : Peptidoform M) : result V :=
  let props := properties self in
  let* per_position := sequential self in
  let* acc := add_tags (v_total per_position) (labile_modifications props) in
  add_tags acc (unlocalized_modifications props).
End Resolver.

(** [sum(l)] over floats, accumulated from the left. *)
Definition py_sum (l : list M) : M := fold_left madd l mzero.

Definition sequential_composition : Peptidoform M → result (list Composition) :=
  sequential "composition" comp_add tag_composition std_aa_comp
             {[ "H" := 1 ]} {[ "H" := 1; "O" := 1 ]}.

Definition composition : Peptidoform M → result Composition :=
  total "composition" comp_add tag_composition std_aa_comp
        {[ "H" := 1 ]} {[ "H" := 1; "O" := 1 ]} comp_sum.

Definition sequential_theoretical_mass : Peptidoform M → result (list M) :=
  sequential "mass" madd tag_mass std_aa_mass
             (comp_mass {[ "H" := 1 ]}) (comp_mass {[ "H" := 1; "O" := 1 ]}).

Definition theoretical_mass : Peptidoform M → result M :=
  total "mass" madd tag_mass std_aa_mass
        (comp_mass {[ "H" := 1 ]}) (comp_mass {[ "H" := 1; "O" := 1 ]}) py_sum.

(** [mass.nist_mass["H"][1][0]] *)
Definition proton_mass : result M :=
  match nist_mass !! "H" with
  | Some isotopes =>
      match isotopes !! 1 with
      | Some entry => Ok entry.1
      | None => Err (Raise KeyError "1")
      end
  | None => Err (Raise KeyError "'H'")
  end.

Definition theoretical_mz (self : Peptidoform M) : result (option M) :=
  match precursor_charge self with
  | Some c =>
      if decide (c = 0) then Ok None
      else
        let* m := theoretical_mass self in
        let* h := proton_mass in
        Ok (Some (mdiv_int (madd m (mmul_int h c)) c))
  | None => Ok None
  end.

(** *** Methods that rewrite the object

    The object is threaded as state; an exception leaves the state as it
    was when it was raised. *)
Definition action (A : Type) : Type :=
  Peptidoform M → result A * Peptidoform M.

Definition act_ret {A} (a : A) : action A := λ self, (Ok a, self).

Definition act_bind {A B} (c : action A) (k : A → action B) : action B :=
  λ self,
    match c self with
    | (Ok a, self') => k a self'
    | (Err e, self') => (Err e, self')
    end.

Definition act_get : action (Peptidoform M) := λ self, (Ok self, self).

Definition act_modify (f : Peptidoform M → Peptidoform M) : action unit :=
  λ self, (Ok tt, f self).

Definition act_lift {A} (r : result A) : action A := λ self, (r, self).

Notation "'do*' x ':=' c 'in' k" := (act_bind c (fun x => k))
  (at level 10, x binder, c at level 100, k at level 200).

(** The nested function [_rename_modification_list(mods)], for a list of
    objects whose attribute [value] is read by [value_of].  [new_mods]
    receives either a tag built from the mapped label ([inl]) or the
    element itself ([inr]). *)
Fixpoint _rename_modification_list {A} (value_of : A → result string)
    (mapping : gmap string string) (mods : list A)
    : result (list (ModificationTag M + A)) :=
  match mods with
  | [] => Ok []
  | item :: rest =>
      let* label := value_of item in
      let* new_mod :=
        match mapping !! label with
        | Some new_label =>
            let* tag := process_tag_tokens new_label in Ok (inl tag)
        | None => Ok (inr item)
        end in
      let* new_mods := _rename_modification_list value_of mapping rest in
      Ok (new_mod :: new_mods)
  end.

(** [mod.value] on a tag. *)
Definition tag_value_of (tag : ModificationTag M) : result string :=
  Ok (tag_value tag).

(** [mod.value] on an element of [fixed_modifications]: a
    [ModificationRule] carries [modification_tag] and [targets], the two
    attributes the module reads from it, and has no attribute [value]. *)
Definition rule_value_of (rule : ModificationRule M) : result string :=
  Err no_value_error.

Definition either_tag (x : ModificationTag M + ModificationTag M)
    : ModificationTag M :=
  match x with
  | inl tag => tag
  | inr tag => tag
  end.

Definition rename_tags (mapping : gmap string string)
    (mods : list (ModificationTag M)) : result (list (ModificationTag M)) :=
  let* new_mods := _rename_modification_list tag_value_of mapping mods in
  Ok (either_tag <$> new_mods).

(** A renamed rule list can only be stored when it holds rules; the call
    raises before any element is produced (see [rename_rules_raises]). *)
Definition rename_rules (mapping : gmap string string)
    (rules : list (ModificationRule M)) : result (list (ModificationRule M)) :=
  let* new_mods := _rename_modification_list rule_value_of mapping rules in
  Ok (omap (λ x, match x with inl _ => None | inr rule => Some rule end)
           new_mods).

(** [for i, (aa, mods) in enumerate(self.parsed_sequence)], from index [i]
    for [n] more steps. *)
Fixpoint rename_positions (mapping : gmap string string) (i n : nat)
    : action unit :=
  match n with
  | O => act_ret tt
  | S n =>
      do* self := act_get in
      do* _ :=
        match parsed_sequence self !! i with
        | Some (aa, mods) =>
            if truthy mods then
              do* new_mods := act_lift (rename_tags mapping (default [] mods)) in
              act_modify (λ self,
                set_parsed_sequence
                  (<[i := (aa, Some new_mods)]> (parsed_sequence self)) self)
            else act_ret tt
        | None => act_ret tt
        end in
      rename_positions mapping (S i) n
  end.

Definition rename_n_term (mapping : gmap string string) : action unit :=
  do* self := act_get in
  let mods := n_term (properties self) in
  if truthy mods then
    do* new_mods := act_lift (rename_tags mapping (default [] mods)) in
    act_modify (set_n_term (Some new_mods))
  else act_ret tt.

Definition rename_c_term (mapping : gmap string string) : action unit :=
  do* self := act_get in
  let mods := c_term (properties self) in
  if truthy mods then
    do* new_mods := act_lift (rename_tags mapping (default [] mods)) in
    act_modify (set_c_term (Some new_mods))
  else act_ret tt.

Definition rename_unlocalized (mapping : gmap string string) : action unit :=
  do* self := act_get in
  let mods := unlocalized_modifications (properties self) in
  if truthy (Some mods) then
    do* new_mods := act_lift (rename_tags mapping mods) in
    act_modify (set_unlocalized_modifications new_mods)
  else act_ret tt.

Definition rename_labile (mapping : gmap string string) : action unit :=
  do* self := act_get in
  let mods := labile_modifications (properties self) in
  if truthy (Some mods) then
    do* new_mods := act_lift (rename_tags mapping mods) in
    act_modify (set_labile_modifications new_mods)
  else act_ret tt.

Definition rename_fixed (mapping : gmap string string) : action unit :=
  do* self := act_get in
  let mods := fixed_modifications (properties self) in
  if truthy mods then
    do* new_mods := act_lift (rename_rules mapping (default [] mods)) in
    act_modify (set_fixed_modifications (Some new_mods))
  else act_ret tt.

Definition rename_modifications (mapping : gmap string string) : action unit :=
  do* self := act_get in
  do* _ := rename_positions mapping 0 (length (parsed_sequence self)) in
  do* _ := rename_n_term mapping in
  do* _ := rename_c_term mapping in
  do* _ := rename_unlocalized mapping in
  do* _ := rename_labile mapping in
  rename_fixed mapping.

(** The list comprehension of [add_fixed_modifications]. *)
Fixpoint make_rules (modification_rules : list (string * list string))
    : result (list (ModificationRule M)) :=
  match modification_rules with
  | [] => Ok []
  | (label, tgts) :: rest =>
      let* tag := process_tag_tokens label in
      let* rules := make_rules rest in
      Ok ({| modification_tag := tag; targets := tgts |} :: rules)
  end.

Definition add_fixed_modifications
    (modification_rules : list (string * list string)) : action unit :=
  do* rules := act_lift (make_rules modification_rules) in
  do* self := act_get in
  let fixed := fixed_modifications (properties self) in
  if truthy fixed then
    act_modify (set_fixed_modifications (Some (default [] fixed ++ rules)))
  else act_modify (set_fixed_modifications (Some rules)).

(** [for target_aa in rule.targets:
       try: rule_dict[target_aa].append(rule.modification_tag)
       except KeyError: rule_dict[target_aa] = [rule.modification_tag]] *)
Fixpoint append_targets (tag : ModificationTag M) (tgts : list string)
    (rule_dict : gmap string (list (ModificationTag M)))
    : gmap string (list (ModificationTag M)) :=
  match tgts with
  | [] => rule_dict
  | target_aa :: rest =>
      append_targets tag rest
        match rule_dict !! target_aa with
        | Some tags => <[target_aa := tags ++ [tag]]> rule_dict
        | None => <[target_aa := [tag]]> rule_dict
        end
  end.

Fixpoint build_rule_dict (rules : list (ModificationRule M))
    (rule_dict : gmap string (list (ModificationTag M)))
    : gmap string (list (ModificationTag M)) :=
  match rules with
  | [] => rule_dict
  | rule :: rest =>
      build_rule_dict rest
        (append_targets (modification_tag rule) (targets rule) rule_dict)
  end.

(** What the loop over [parsed_sequence] leaves at one position. *)
Definition apply_at (rule_dict : gmap string (list (ModificationTag M)))
    (pos : Position M) : Position M :=
  let '(aa, site_mods) := pos in
  match rule_dict !! aa with
  | Some tags =>
      if truthy site_mods then (aa, Some (default [] site_mods ++ tags))
      else (aa, Some tags)
  | None => pos
  end.

(** [for i, (aa, site_mods) in enumerate(self.parsed_sequence)], from
    index [i] for [n] more steps, writing [self.parsed_sequence[i]]. *)
Fixpoint apply_positions (rule_dict : gmap string (list (ModificationTag M)))
    (i n : nat) (seq : list (Position M)) : list (Position M) :=
  match n with
  | O => seq
  | S n =>
      apply_positions rule_dict (S i) n
        match seq !! i with
        | Some pos =>
            match rule_dict !! pos.1 with
            | Some _ => <[i := apply_at rule_dict pos]> seq
            | None => seq
            end
        | None => seq
        end
  end.

Definition apply_fixed_modifications (self : Peptidoform M) : Peptidoform M :=
  let fixed := fixed_modifications (properties self) in
  if truthy fixed then
    let rule_dict := build_rule_dict (default [] fixed) ∅ in
    let seq := parsed_sequence self in
    set_fixed_modifications None
      (set_parsed_sequence (apply_positions rule_dict 0 (length seq) seq) self)
  else self.

End Peptidoform.

(** ** Definitions in the words of the specification *)

Section Specification.
Context {M : Type}.

(** Every tag of the list resolves, to the values [vs] in order. *)
Definition resolve_to {V : Type} (tag_attr : ModificationTag M → result V)
    (tags : list (ModificationTag M)) (vs : list V) : Prop :=
  Forall2 (λ tag v, tag_attr tag = Ok v) tags vs.

(** The rules whose targets include the residue [aa], in rule order. *)
Definition rules_for (aa : string) (rules : list (ModificationRule M))
    : list (ModificationRule M) :=
  filter (λ rule, aa ∈ targets rule) rules.

(** The tags that rule-by-rule appending collects for the residue [aa]:
    each rule's tag, once per occurrence of [aa] among its targets. *)
Definition tags_for (aa : string) (rules : list (ModificationRule M))
    : list (ModificationTag M) :=
  rules ≫= λ rule,
    (λ _, modification_tag rule) <$> filter (λ t, t = aa) (targets rule).

(** Materialising the rules at one position: the collected tags go after
    the tags the position has, and a position that is no target is kept. *)
Definition materialize (rules : list (ModificationRule M)) (pos : Position M)
    : Position M :=
  match tags_for pos.1 rules with
  | [] => pos
  | tags => (pos.1, Some (default [] pos.2 ++ tags))
  end.

(** The reading of a fixed rule that skips positions with local tags:
    the value of a position when the rule's contribution [fixed] is left
    out wherever the position carries tags of its own. *)
Definition position_unless_local {V : Type} (v_add : V → V → V)
    (base : V) (fixed : option V) (locals : list V) : V :=
  match locals, fixed with
  | [], Some v => v_add base v
  | _, _ => fold_left v_add locals base
  end.

(** Renaming one tag, and every tag of a peptidoform, by [mapping]. *)
Definition renamed_tag (fresh : string → ModificationTag M)
    (mapping : gmap string string) (tag : ModificationTag M)
    : ModificationTag M :=
  match mapping !! tag_value tag with
  | Some new_label => fresh new_label
  | None => tag
  end.

Definition renamed_tags (fresh : string → ModificationTag M)
    (mapping : gmap string string) (mods : list (ModificationTag M))
    : list (ModificationTag M) :=
  renamed_tag fresh mapping <$> mods.

Definition renamed_position (fresh : string → ModificationTag M)
    (mapping : gmap string string) (pos : Position M) : Position M :=
  (pos.1, renamed_tags fresh mapping <$> pos.2).

(** The peptidoform with every tag on a position, a terminus, or in the
    unlocalized or labile list renamed. *)
Definition renamed (fresh : string → ModificationTag M)
    (mapping : gmap string string) (self : Peptidoform M) : Peptidoform M :=
  let props := properties self in
  {| parsed_sequence :=
       renamed_position fresh mapping <$> parsed_sequence self;
     properties :=
       {| n_term := renamed_tags fresh mapping <$> n_term props;
          c_term := renamed_tags fresh mapping <$> c_term props;
          unlocalized_modifications :=
            renamed_tags fresh mapping (unlocalized_modifications props);
          labile_modifications :=
            renamed_tags fresh mapping (labile_modifications props);
          fixed_modifications := fixed_modifications props;
          charge_state := charge_state props;
          isotopes := isotopes props |} |}.

(** A dict entry that holds a list is there when the list is not empty. *)
Definition entry {A} (l : list A) : option (list A) :=
  match l with
  | [] => None
  | _ => Some l
  end.


End Specification.

(** ** A small instance to run the code on

    Masses are integers (thousandths of a dalton) so that the methods
    evaluate; the tables hold three residues and three modifications. *)

#[global] Instance ex_arith : MassArith Z :=
  {| madd := Z.add; mmul_int := Z.mul; mdiv_int := Z.div; mzero := 0 |}.

Definition ex_unknown (label : string) : exn := Raise KeyError label.

Definition ex_tag (label : string) : ModificationTag Z :=
  if String.eqb label "Carbamidomethyl" then
    {| tag_value := label;
       tag_composition := Ok {[ "C" := 2; "H" := 3; "N" := 1; "O" := 1 ]};
       tag_mass := Ok 57021 |}
  else if String.eqb label "Oxidation" then
    {| tag_value := label;
       tag_composition := Ok {[ "O" := 1 ]};
       tag_mass := Ok 15995 |}
  else if String.eqb label "Acetyl" then
    {| tag_value := label;
       tag_composition := Ok {[ "C" := 2; "H" := 2; "O" := 1 ]};
       tag_mass := Ok 42011 |}
  else
    {| tag_value := label;
       tag_composition := Err (ex_unknown label);
       tag_mass := Err (ex_unknown label) |}.

Definition ex_props : Properties Z :=
  {| n_term := None; c_term := None;
     unlocalized_modifications := []; labile_modifications := [];
     fixed_modifications := Some []; charge_state := None; isotopes := [] |}.

Definition ex_with_fixed (rules : list (ModificationRule Z)) : Properties Z :=
  {| n_term := None; c_term := None;
     unlocalized_modifications := []; labile_modifications := [];
     fixed_modifications := Some rules; charge_state := None; isotopes := [] |}.

Definition ex_comp_mass (c : Composition) : Z :=
  1008 * comp_getitem c "H" + 12000 * comp_getitem c "C"
  + 14003 * comp_getitem c "N" + 15995 * comp_getitem c "O"
  + 31972 * comp_getitem c "S".

(** A serializer that writes residues and bracketed labels. *)
Definition ex_labels (tags : option (list (ModificationTag Z))) : string :=
  foldr (λ tag acc, "[" +:+ tag_value tag +:+ "]" +:+ acc) "" (default [] tags).

Definition ex_to_proforma (seq : list (Position Z)) (props : Properties Z)
    : string :=
  foldr (λ rule acc,
           "<[" +:+ tag_value (modification_tag rule) +:+ "]@"
             +:+ foldr String.append "" (targets rule) +:+ ">" +:+ acc)
        "" (default [] (fixed_modifications props))
  +:+ (if truthy (n_term props) then ex_labels (n_term props) +:+ "-" else "")
  +:+ foldr (λ pos acc, pos.1 +:+ ex_labels pos.2 +:+ acc) "" seq
  +:+ (if truthy (c_term props) then "-" +:+ ex_labels (c_term props) else "").

(** A parser that knows three texts. *)
Definition ex_parse (text : string)
    : result (list (Position Z) * Properties Z) :=
  if String.eqb text "AC" then Ok ([("A", None); ("C", None)], ex_props)
  else if String.eqb text "<[Carbamidomethyl]@C>AC" then
    Ok ([("A", None); ("C", None)],
        ex_with_fixed [ {| modification_tag := ex_tag "Carbamidomethyl";
                           targets := ["C"] |} ])
  else if String.eqb text "<13C>AC" then
    Ok ([("A", None); ("C", None)],
        {| n_term := None; c_term := None;
           unlocalized_modifications := []; labile_modifications := [];
           fixed_modifications := Some []; charge_state := None;
           isotopes := ["13C"] |})
  else Err (Raise Exception "cannot parse").

#[global] Instance ex_env : Environment Z :=
  {| std_aa_comp :=
       {[ "A" := {[ "C" := 3; "H" := 5; "N" := 1; "O" := 1 ]};
          "C" := {[ "C" := 3; "H" := 5; "N" := 1; "O" := 1; "S" := 1 ]};
          "M" := {[ "C" := 5; "H" := 9; "N" := 1; "O" := 1; "S" := 1 ]} ]};
     std_aa_mass := {[ "A" := 71037; "C" := 103009; "M" := 131040 ]};
     nist_mass := {[ "H" := {[ 1 := (1008, 1000); 2 := (2014, 0) ]} ]};
     comp_mass := ex_comp_mass;
     parse := ex_parse;
     to_proforma := ex_to_proforma;
     process_tag_tokens := λ label, Ok (ex_tag label);
     py_hash := λ s, Z.of_nat (String.length s) |}.

Definition ex_rule (label : string) (tgts : list string) : ModificationRule Z :=
  {| modification_tag := ex_tag label; targets := tgts |}.

(** [<[Carbamidomethyl]@C>AC[Oxidation]] *)
Definition ex_fixed_and_local : Peptidoform Z :=
  {| parsed_sequence := [("A", None); ("C", Some [ex_tag "Oxidation"])];
     properties := ex_with_fixed [ex_rule "Carbamidomethyl" ["C"]] |}.

(** [<[Carbamidomethyl]@C>AC] *)
Definition ex_fixed : Peptidoform Z :=
  {| parsed_sequence := [("A", None); ("C", None)];
     properties := ex_with_fixed [ex_rule "Carbamidomethyl" ["C"]] |}.

(** [<[cmm]@C>AC]: the label of the rule is not a known modification. *)
Definition ex_fixed_unknown : Peptidoform Z :=
  {| parsed_sequence := [("A", None); ("C", None)];
     properties := ex_with_fixed [ex_rule "cmm" ["C"]] |}.

(** [AC[cmm]]: the same label on a position. *)
Definition ex_local_unknown : Peptidoform Z :=
  {| parsed_sequence := [("A", None); ("C", Some [ex_tag "cmm"])];
     properties := ex_props |}.

(** [{Oxidation}[Acetyl]?[Acetyl]-AM[Oxidation]C/2], with a rule on C. *)
Definition ex_many : Peptidoform Z :=
  {| parsed_sequence :=
       [("A", None); ("M", Some [ex_tag "Oxidation"]); ("C", Some [])];
     properties :=
       {| n_term := Some [ex_tag "Acetyl"]; c_term := None;
          unlocalized_modifications := [ex_tag "Acetyl"];
          labile_modifications := [ex_tag "Oxidation"];
          fixed_modifications := Some [ex_rule "Carbamidomethyl" ["C"]];
          charge_state := Some {| charge := 2 |}; isotopes := [] |} |}.

(** The per-position compositions of [ex_many]. *)
Definition ex_many_compositions : list Composition :=
  [ {[ "H" := 3; "C" := 2; "O" := 1 ]};
    {[ "C" := 3; "H" := 5; "N" := 1; "O" := 1 ]};
    {[ "C" := 5; "H" := 9; "N" := 1; "O" := 2; "S" := 1 ]};
    {[ "C" := 5; "H" := 8; "N" := 2; "O" := 2; "S" := 1 ]};
    {[ "H" := 1; "O" := 1 ]} ].

(** The per-position compositions of [ex_fixed_and_local]. *)
Definition ex_fixed_and_local_compositions : list Composition :=
  [ {[ "H" := 1 ]};
    {[ "C" := 3; "H" := 5; "N" := 1; "O" := 1 ]};
    {[ "C" := 5; "H" := 8; "N" := 2; "O" := 3; "S" := 1 ]};
    {[ "H" := 1; "O" := 1 ]} ].

(** [<[Oxidation]@C><[Carbamidomethyl]@C,M>CM]: two rules on C. *)
Definition ex_two_rules : list (ModificationRule Z) :=
  [ex_rule "Oxidation" ["C"]; ex_rule "Carbamidomethyl" ["C"; "M"]].

Definition ex_overlap : Peptidoform Z :=
  {| parsed_sequence := [("C", None); ("M", Some [ex_tag "Oxidation"])];
     properties := ex_with_fixed ex_two_rules |}.

(** [<[Oxidation]@C><[Carbamidomethyl]@C>C[Acetyl]]: the second rule
    shadows the first on C, and the residue carries a tag of its own. *)
Definition ex_shadowing_rules : list (ModificationRule Z) :=
  [ex_rule "Oxidation" ["C"]; ex_rule "Carbamidomethyl" ["C"]].

Definition ex_shadowed : Peptidoform Z :=
  {| parsed_sequence := [("C", Some [ex_tag "Acetyl"])];
     properties := ex_with_fixed ex_shadowing_rules |}.

(** The per-position compositions of [ex_shadowed]. *)
Definition ex_shadowed_compositions : list Composition :=
  [ {[ "H" := 1 ]};
    {[ "C" := 7; "H" := 10; "N" := 2; "O" := 3; "S" := 1 ]};
    {[ "H" := 1; "O" := 1 ]} ].

(** [<[cmm]@C>AC[cmm]] *)
Definition ex_rename : Peptidoform Z :=
  {| parsed_sequence := [("A", None); ("C", Some [ex_tag "cmm"])];
     properties := ex_with_fixed [ex_rule "cmm" ["C"]] |}.

(** [AC/0]: a charge state of zero. *)
Definition ex_zero_charge : Peptidoform Z :=
  {| parsed_sequence := [("A", None); ("C", None)];
     properties :=
       {| n_term := None; c_term := None;
          unlocalized_modifications := []; labile_modifications := [];
          fixed_modifications := Some []; charge_state := Some {| charge := 0 |};
          isotopes := [] |} |}.

(** Two representations of the text [A]: without a tag list, and with an
    empty one. *)
Definition ex_bare : Peptidoform Z :=
  {| parsed_sequence := [("A", None)]; properties := ex_props |}.

Definition ex_bare' : Peptidoform Z :=
  {| parsed_sequence := [("A", Some [])]; properties := ex_props |}.

(** The peptidoforms of the docstrings: [ATPEILTCNSIGCLK], the same
    with the rule [<[Carbamidomethyl]@C>], and [[ac]-PEPTC[cmm]IDEK]. *)
Definition ex_residues (codes : list string) : list (Position Z) :=
  (λ aa, (aa, None)) <$> codes.

Definition ex_doc_plain : Peptidoform Z :=
  {| parsed_sequence :=
       ex_residues ["A"; "T"; "P"; "E"; "I"; "L"; "T"; "C"; "N"; "S"; "I";
                    "G"; "C"; "L"; "K"];
     properties := ex_props |}.

Definition ex_doc_fixed : Peptidoform Z :=
  {| parsed_sequence := parsed_sequence ex_doc_plain;
     properties := ex_with_fixed [ex_rule "Carbamidomethyl" ["C"]] |}.

Definition ex_doc_rename : Peptidoform Z :=
  {| parsed_sequence :=
       ex_residues ["P"; "E"; "P"; "T"] ++ [("C", Some [ex_tag "cmm"])]
         ++ ex_residues ["I"; "D"; "E"; "K"];
     properties :=
       {| n_term := Some [ex_tag "ac"]; c_term := None;
          unlocalized_modifications := []; labile_modifications := [];
          fixed_modifications := Some []; charge_state := None;
          isotopes := [] |} |}.

(** ** Text views, the tags of a peptidoform, and its reachable states *)

(** The residue code made of one character. *)
Definition code_of_char (c : Ascii.ascii) : string := String c "".

Section Views.
Context {M : Type} `{!MassArith M} `{!Environment M}.

Definition __str__ (self : Peptidoform M) : string := proforma self.

(** [f"{self.__class__.__qualname__}('{self.proforma}')"], for an object
    of the class itself. *)
Definition __repr__ (self : Peptidoform M) : string :=
  "Peptidoform" +:+ "('" +:+ proforma self +:+ "')".

(** A computation returned. *)
Definition is_Ok {A} (c : result A) : Prop := ∃ a, c = Ok a.

(** The tags on the residues, in sequence order. *)
Definition position_tags (seq : list (Position M))
    : list (ModificationTag M) :=
  seq ≫= λ pos, default [] pos.2.

(** The tags the per-position accessors read inside a [try]: those of
    the N-terminus, of the residues and of the C-terminus. *)
Definition local_tags (self : Peptidoform M) : list (ModificationTag M) :=
  default [] (n_term (properties self))
  ++ position_tags (parsed_sequence self)
  ++ default [] (c_term (properties self)).

(** The tags the aggregates read after the per-position results. *)
Definition sequence_wide_tags (self : Peptidoform M)
    : list (ModificationTag M) :=
  labile_modifications (properties self)
  ++ unlocalized_modifications (properties self).

(** Everything a per-position accessor reads can be read:
    [fixed_modifications] is a list, the tag of every rule that has a
    target resolves, every tag of [local_tags] resolves and every
    residue is in the table. *)
Definition all_resolve {V : Type} (tag_attr : ModificationTag M → result V)
    (std_aa : gmap string V) (self : Peptidoform M) : Prop :=
  (∃ rules,
     fixed_modifications (properties self) = Some rules
     ∧ Forall (λ rule, targets rule ≠ [] →
                       is_Ok (tag_attr (modification_tag rule))) rules)
  ∧ Forall (λ tag, is_Ok (tag_attr tag)) (local_tags self)
  ∧ Forall (λ pos : Position M, is_Some (std_aa !! pos.1))
      (parsed_sequence self).

(** A tag fails, if at all, with an exception the [try] blocks catch. *)
Definition fails_by_lookup {V : Type}
    (tag_attr : ModificationTag M → result V) (tag : ModificationTag M)
    : Prop :=
  ∀ e, tag_attr tag = Err e → is_lookup_failure e = true.

(** The label a tag would be renamed to can be made into a tag, which is
    [fresh] of that label. *)
Definition constructible (mapping : gmap string string)
    (fresh : string → ModificationTag M) (tag : ModificationTag M) : Prop :=
  ∀ new_label, mapping !! tag_value tag = Some new_label →
               process_tag_tokens new_label = Ok (fresh new_label).

(** What no method changes after construction: the residues, the charge
    state and the isotopes. *)
Definition skeleton (self : Peptidoform M)
    : list string * option ChargeState * list string :=
  (fst <$> parsed_sequence self, charge_state (properties self),
   isotopes (properties self)).

(** The objects a caller can hold: the one the constructor returns for
    [text], and what the three rewriting methods leave, also when
    [rename_modifications] or [add_fixed_modifications] raise. *)
Inductive reachable (text : string) : Peptidoform M → Prop :=
  | reach_init self :
      __init__ text = Ok self → reachable text self
  | reach_rename self mapping :
      reachable text self →
      reachable text (rename_modifications mapping self).2
  | reach_add self modification_rules :
      reachable text self →
      reachable text (add_fixed_modifications modification_rules self).2
  | reach_apply self :
      reachable text self →
      reachable text (apply_fixed_modifications self).

End Views.

(** [AC] without any modification, and [CA], the same residues in the
    other order. *)
Definition ex_plain : Peptidoform Z :=
  {| parsed_sequence := [("A", None); ("C", None)]; properties := ex_props |}.

Definition ex_plain_swapped : Peptidoform Z :=
  {| parsed_sequence := [("C", None); ("A", None)]; properties := ex_props |}.

(** [AX]: the residue X is not in the table. *)
Definition ex_unknown_residue : Peptidoform Z :=
  {| parsed_sequence := [("A", None); ("X", Some [ex_tag "cmm"]); ("C", None)];
     properties := ex_props |}.

(** ** Facts about compositions *)

Lemma lookup_comp_setitem (elem k : string) (cnt : Z) (c : Composition) :
  comp_setitem elem cnt c !! k
  = if decide (elem = k) then nonzero cnt else c !! k.
Proof.
  unfold comp_setitem, nonzero.
  destruct (decide (cnt = 0)), (decide (elem = k)); subst;
    simplify_map_eq; done.
Qed.

Lemma lookup_comp_add (a b : Composition) (k : string) :
  comp_add a b !! k = count_add (a !! k) (b !! k).
Proof.
  unfold comp_add.
  apply (map_fold_weak_ind
           (λ (r : Composition) (m : Composition),
              r !! k = count_add (a !! k) (m !! k))).
  - rewrite lookup_empty. by destruct (a !! k).
  - intros i x m r Hi IH.
    rewrite lookup_comp_setitem.
    destruct (decide (i = k)) as [->|Hne].
    + rewrite lookup_insert_eq. unfold comp_getitem.
      rewrite IH, Hi. destruct (a !! k); simpl; [done|].
      by rewrite Z.add_0_l.
    + by rewrite lookup_insert_ne.
Qed.


Lemma comp_add_right_comm (a b c : Composition) :
  comp_add (comp_add a b) c = comp_add (comp_add a c) b.
Proof.
  apply map_eq. intros k. rewrite !lookup_comp_add.
  destruct (a !! k) as [x|], (b !! k) as [y|], (c !! k) as [z|];
    simpl; unfold nonzero; repeat case_decide; simpl;
    try done; try (f_equal; lia); try lia.
Qed.

(** [+=] in a loop does not depend on the order of the operands. *)
Lemma fold_comp_add_perm (l l' : list Composition) (a : Composition) :
  l ≡ₚ l' → fold_left comp_add l a = fold_left comp_add l' a.
Proof.
  intros Hp. revert a.
  induction Hp as [|x l l' _ IH|x y l|l l' l'' _ IH1 _ IH2]; intros a; simpl.
  - done.
  - apply IH.
  - by rewrite comp_add_right_comm.
  - by rewrite IH1, IH2.
Qed.




(** ** Facts about the error monad and the class hierarchy *)

Lemma bind_Ok {A B} (c : result A) (k : A → result B) (b : B) :
  bind c k = Ok b ↔ ∃ a, c = Ok a ∧ k a = Ok b.
Proof.
  destruct c as [a|e]; simpl; split.
  - eauto.
  - by intros (a' & [= <-] & ?).
  - done.
  - by intros (? & ? & ?).
Qed.

Lemma except_lookup_Ok {A} (body : result A) (handler : exn) (a : A) :
  except_lookup body handler = Ok a ↔ body = Ok a.
Proof.
  destruct body as [a'|e]; simpl; [done|].
  destruct (is_lookup_failure e); split; done.
Qed.

Lemma except_lookup_failure {A} (e handler : exn) :
  is_lookup_failure e = true →
  except_lookup (A := A) (Err e) handler = Err handler.
Proof. intros He. simpl. by rewrite He. Qed.

(** ** Facts about the resolver *)

Section ResolverFacts.
Context {M : Type} `{!MassArith M} `{!Environment M}.
Context {V : Type}.
Variable what : string.
Variable v_add : V → V → V.
Variable tag_attr : ModificationTag M → result V.
Variable std_aa : gmap string V.
Variable n_start c_start : V.
Variable v_total : list V → V.

Lemma add_tags_Ok (acc r : V) (tags : list (ModificationTag M)) :
  add_tags what v_add tag_attr acc tags = Ok r
  ↔ ∃ vs, resolve_to tag_attr tags vs ∧ r = fold_left v_add vs acc.
Proof.
  revert acc. induction tags as [|tag tags IH]; intros acc; simpl.
  - split.
    + intros [= <-]. exists []. split; [constructor|done].
    + intros (vs & Hvs & ->). inversion Hvs; by subst.
  - rewrite bind_Ok. split.
    + intros (v & Hv & Hrest). apply except_lookup_Ok in Hv.
      apply IH in Hrest as (vs & Hvs & ->).
      exists (v :: vs). split; [by constructor|done].
    + intros (vs & Hvs & ->). inversion Hvs as [|? v ? vs' Hv Hvs']; subst.
      exists v. split; [by apply except_lookup_Ok|].
      apply IH. by exists vs'.
Qed.

Lemma add_optional_tags_Ok (acc r : V)
    (tags : option (list (ModificationTag M))) :
  add_optional_tags what v_add tag_attr acc tags = Ok r
  ↔ ∃ vs, resolve_to tag_attr (default [] tags) vs
          ∧ r = fold_left v_add vs acc.
Proof.
  unfold add_optional_tags.
  destruct tags as [[|tag tags]|]; simpl truthy; cbv iota.
  - split.
    + intros [= <-]. exists []. split; [constructor|done].
    + intros (vs & Hvs & ->). inversion Hvs; by subst.
  - apply add_tags_Ok.
  - split.
    + intros [= <-]. exists []. split; [constructor|done].
    + intros (vs & Hvs & ->). inversion Hvs; by subst.
Qed.

Lemma position_value_Ok (fixed_rules : gmap string V) (aa : string)
    (tags : option (list (ModificationTag M))) (r : V) :
  position_value what v_add tag_attr std_aa fixed_rules (aa, tags) = Ok r
  ↔ ∃ base vs,
      std_aa !! aa = Some base
      ∧ resolve_to tag_attr (default [] tags) vs
      ∧ r = fold_left v_add vs
              match fixed_rules !! aa with
              | Some v => v_add base v
              | None => base
              end.
Proof.
  unfold position_value. rewrite bind_Ok. split.
  - intros (base & Hbase & Htags).
    destruct (std_aa !! aa) as [b|] eqn:Hb; [|done].
    injection Hbase as ->.
    apply add_optional_tags_Ok in Htags as (vs & Hvs & ->).
    by exists base, vs.
  - intros (base & vs & Hbase & Hvs & ->). exists base. rewrite Hbase.
    split; [done|]. apply add_optional_tags_Ok. by exists vs.
Qed.

Lemma position_values_Ok (fixed_rules : gmap string V)
    (seq : list (Position M)) (vs : list V) :
  position_values what v_add tag_attr std_aa fixed_rules seq = Ok vs
  ↔ Forall2 (λ pos v,
       position_value what v_add tag_attr std_aa fixed_rules pos = Ok v)
     seq vs.
Proof.
  revert vs. induction seq as [|pos seq IH]; intros vs; simpl.
  - split.
    + intros [= <-]. constructor.
    + intros Hf. inversion Hf. by subst.
  - rewrite bind_Ok. split.
    + intros (v & Hv & Hrest). apply bind_Ok in Hrest as (vs' & Hvs' & [= <-]).
      constructor; [done|]. by apply IH.
    + intros Hf. inversion Hf as [|? v ? vs' Hv Hvs']; subst.
      exists v. split; [done|]. apply bind_Ok. exists vs'.
      split; [by apply IH|done].
Qed.

Lemma sequential_Ok (self : Peptidoform M) (l : list V) :
  sequential what v_add tag_attr std_aa n_start c_start self = Ok l
  ↔ ∃ fixed_rules n residues c,
      build_fixed_rules tag_attr (fixed_modifications (properties self))
        = Ok fixed_rules
      ∧ add_optional_tags what v_add tag_attr n_start
          (n_term (properties self)) = Ok n
      ∧ position_values what v_add tag_attr std_aa fixed_rules
          (parsed_sequence self) = Ok residues
      ∧ add_optional_tags what v_add tag_attr c_start
          (c_term (properties self)) = Ok c
      ∧ l = n :: residues ++ [c].
Proof.
  unfold sequential. rewrite bind_Ok. split.
  - intros (fr & Hfr & H1). apply bind_Ok in H1 as (n & Hn & H2).
    apply bind_Ok in H2 as (rs & Hrs & H3).
    apply bind_Ok in H3 as (c & Hc & [= <-]).
    by exists fr, n, rs, c.
  - intros (fr & n & rs & c & Hfr & Hn & Hrs & Hc & ->).
    exists fr. split; [done|]. apply bind_Ok. exists n. split; [done|].
    apply bind_Ok. exists rs. split; [done|].
    apply bind_Ok. exists c. by split.
Qed.

Lemma total_Ok (self : Peptidoform M) (r : V) :
  total what v_add tag_attr std_aa n_start c_start v_total self = Ok r
  ↔ ∃ per_position labile unlocalized,
      sequential what v_add tag_attr std_aa n_start c_start self
        = Ok per_position
      ∧ resolve_to tag_attr (labile_modifications (properties self)) labile
      ∧ resolve_to tag_attr (unlocalized_modifications (properties self))
          unlocalized
      ∧ r = fold_left v_add (labile ++ unlocalized) (v_total per_position).
Proof.
  unfold total. rewrite bind_Ok. split.
  - intros (l & Hl & H1). apply bind_Ok in H1 as (acc & Hacc & Hr).
    apply add_tags_Ok in Hacc as (ls & Hls & ->).
    apply add_tags_Ok in Hr as (us & Hus & ->).
    exists l, ls, us. by rewrite fold_left_app.
  - intros (l & ls & us & Hl & Hls & Hus & ->). exists l. split; [done|].
    apply bind_Ok. exists (fold_left v_add ls (v_total l)).
    split; [apply add_tags_Ok; by exists ls|].
    apply add_tags_Ok. exists us. by rewrite fold_left_app.
Qed.

End ResolverFacts.

(** ** The fixed-rule lookup *)

Section FixedRuleFacts.
Context {M : Type} `{!MassArith M} `{!Environment M}.
Context {V : Type}.
Variable what : string.
Variable v_add : V → V → V.
Variable tag_attr : ModificationTag M → result V.
Variable std_aa : gmap string V.
Variable n_start c_start : V.

Lemma record_targets_lookup (rule : ModificationRule M) (tgts : list string)
    (fr0 fr : gmap string V) (aa : string) :
  record_targets tag_attr rule tgts fr0 = Ok fr →
  fr !! aa = if decide (aa ∈ tgts)
             then ok_value (tag_attr (modification_tag rule))
             else fr0 !! aa.
Proof.
  revert fr0. induction tgts as [|t tgts IH]; intros fr0; simpl.
  - intros [= <-]. destruct (decide (aa ∈ [])) as [Hin|]; [inversion Hin|done].
  - intros Hrec. apply bind_Ok in Hrec as (v & Hv & Hrec).
    rewrite (IH _ Hrec), Hv. simpl.
    destruct (decide (aa ∈ tgts)) as [Hin|Hout].
    + rewrite decide_True; [done|by right].
    + destruct (decide (aa = t)) as [->|Hne].
      * rewrite decide_True; [|by left]. by rewrite lookup_insert_eq.
      * rewrite decide_False; [by rewrite lookup_insert_ne|].
        intros [?|?]%elem_of_cons; done.
Qed.

(** The entry of a residue is the value of the last rule that targets it. *)
Lemma record_rules_lookup (rules : list (ModificationRule M))
    (fr0 fr : gmap string V) (aa : string) :
  record_rules tag_attr rules fr0 = Ok fr →
  fr !! aa = match last (rules_for aa rules) with
             | Some rule => ok_value (tag_attr (modification_tag rule))
             | None => fr0 !! aa
             end.
Proof.
  revert fr0. induction rules as [|rule rules IH]; intros fr0; simpl.
  - by intros [= <-].
  - intros Hrec. apply bind_Ok in Hrec as (fr1 & Hfr1 & Hrec).
    rewrite (IH _ Hrec). unfold rules_for. rewrite filter_cons.
    pose proof (record_targets_lookup _ _ _ _ aa Hfr1) as H1.
    destruct (decide (aa ∈ targets rule)) as [Hin|Hout].
    + rewrite last_cons. by destruct (last (filter _ rules)).
    + by destruct (last (filter _ rules)).
Qed.

Lemma build_fixed_rules_lookup (rules : list (ModificationRule M))
    (fr : gmap string V) (aa : string) :
  build_fixed_rules tag_attr (Some rules) = Ok fr →
  fr !! aa = last (rules_for aa rules)
             ≫= λ rule, ok_value (tag_attr (modification_tag rule)).
Proof.
  simpl. intros Hrec. rewrite (record_rules_lookup _ _ _ aa Hrec).
  rewrite lookup_empty. by destruct (last (rules_for aa rules)).
Qed.

(** The lookup is only built when the tag of every rule that has a
    target resolves. *)
Lemma record_rules_unresolved (rules : list (ModificationRule M))
    (fr0 fr : gmap string V) (aa : string) (rule : ModificationRule M)
    (e : exn) :
  record_rules tag_attr rules fr0 = Ok fr →
  last (rules_for aa rules) = Some rule →
  tag_attr (modification_tag rule) = Err e →
  False.
Proof.
  revert fr0. induction rules as [|r rules IH]; intros fr0; simpl; [done|].
  intros Hrec Hlast He. apply bind_Ok in Hrec as (fr1 & Hfr1 & Hrec).
  unfold rules_for in Hlast. rewrite filter_cons in Hlast.
  destruct (decide (aa ∈ targets r)) as [Hin|Hout].
  - rewrite last_cons in Hlast.
    destruct (last (filter _ rules)) as [r'|] eqn:Hl.
    + injection Hlast as ->. by eapply IH.
    + injection Hlast as ->.
      destruct (targets rule) as [|t tgts]; [inversion Hin|].
      simpl in Hfr1. by rewrite He in Hfr1.
  - by eapply IH.
Qed.

(** The value the resolver returns for the residue at index [i]: the
    table entry, at most one fixed-rule value, then the local tags. *)
Lemma sequential_position (self : Peptidoform M) (l : list V) (i : nat)
    (aa : string) (tags : option (list (ModificationTag M))) :
  sequential what v_add tag_attr std_aa n_start c_start self = Ok l →
  parsed_sequence self !! i = Some (aa, tags) →
  ∃ rules base locals,
    fixed_modifications (properties self) = Some rules
    ∧ std_aa !! aa = Some base
    ∧ resolve_to tag_attr (default [] tags) locals
    ∧ l !! S i
      = Some (fold_left v_add locals
                match last (rules_for aa rules)
                      ≫= λ rule, ok_value (tag_attr (modification_tag rule))
                with
                | Some v => v_add base v
                | None => base
                end).
Proof.
  intros Hl Hi.
  apply sequential_Ok in Hl as (fr & n & rs & c & Hfr & _ & Hrs & _ & ->).
  destruct (fixed_modifications (properties self)) as [rules|] eqn:Hfixed;
    [|done].
  apply position_values_Ok in Hrs.
  destruct (Forall2_lookup_l _ _ _ _ _ Hrs Hi) as (v & Hv & Hpos).
  apply position_value_Ok in Hpos as (base & locals & Hbase & Hloc & ->).
  exists rules, base, locals. repeat split; [done..|].
  rewrite <- (build_fixed_rules_lookup _ _ aa Hfr). simpl.
  rewrite lookup_app_l; [done|]. by eapply lookup_lt_Some.
Qed.

Lemma sequential_shape (self : Peptidoform M)
    (fixed_rules : gmap string V) (ns cs residues : list V) :
  build_fixed_rules tag_attr (fixed_modifications (properties self))
    = Ok fixed_rules →
  resolve_to tag_attr (default [] (n_term (properties self))) ns →
  Forall2 (λ pos v,
      position_value what v_add tag_attr std_aa fixed_rules pos = Ok v)
    (parsed_sequence self) residues →
  resolve_to tag_attr (default [] (c_term (properties self))) cs →
  sequential what v_add tag_attr std_aa n_start c_start self
  = Ok (fold_left v_add ns n_start :: residues
          ++ [fold_left v_add cs c_start]).
Proof.
  intros Hfr Hn Hrs Hc. apply sequential_Ok.
  exists fixed_rules, (fold_left v_add ns n_start), residues,
    (fold_left v_add cs c_start).
  repeat split; [done| | |].
  - apply add_optional_tags_Ok. by exists ns.
  - by apply position_values_Ok.
  - apply add_optional_tags_Ok. by exists cs.
Qed.

Lemma sequential_length (self : Peptidoform M) (l : list V) :
  sequential what v_add tag_attr std_aa n_start c_start self = Ok l →
  length l = (length (parsed_sequence self) + 2)%nat.
Proof.
  intros Hl.
  apply sequential_Ok in Hl as (fr & n & rs & c & _ & _ & Hrs & _ & ->).
  apply position_values_Ok, Forall2_length in Hrs.
  simpl. rewrite length_app. simpl. lia.
Qed.

(** With [fixed_modifications] set to [None] the resolver raises before
    it looks at a residue or a tag. *)
Lemma sequential_fixed_None (self : Peptidoform M) :
  fixed_modifications (properties self) = None →
  sequential what v_add tag_attr std_aa n_start c_start self
  = Err not_iterable_error.
Proof. intros Hnone. unfold sequential. by rewrite Hnone. Qed.

End FixedRuleFacts.

(** ** Facts about materialising fixed modifications *)

Section ApplyFacts.
Context {M : Type} `{!MassArith M} `{!Environment M}.

Lemma append_targets_lookup (tag : ModificationTag M) (tgts : list string)
    (rule_dict : gmap string (list (ModificationTag M))) (aa : string)
    (l0 : list (ModificationTag M)) :
  rule_dict !! aa = entry l0 →
  append_targets tag tgts rule_dict !! aa
  = entry (l0 ++ ((λ _, tag) <$> filter (λ t, t = aa) tgts)).
Proof.
  revert rule_dict l0.
  induction tgts as [|t tgts IH]; intros rule_dict l0 Hl0; simpl.
  - by rewrite app_nil_r.
  - rewrite filter_cons. destruct (decide (t = aa)) as [->|Hne].
    + rewrite (IH _ (l0 ++ [tag])).
      * by rewrite <- app_assoc.
      * rewrite Hl0. destruct l0 as [|x l0]; simpl.
        -- by rewrite lookup_insert_eq.
        -- by rewrite lookup_insert_eq.
    + apply IH. rewrite <- Hl0.
      destruct (rule_dict !! t); by rewrite lookup_insert_ne.
Qed.

Lemma build_rule_dict_lookup (rules : list (ModificationRule M))
    (rule_dict : gmap string (list (ModificationTag M))) (aa : string)
    (l0 : list (ModificationTag M)) :
  rule_dict !! aa = entry l0 →
  build_rule_dict rules rule_dict !! aa = entry (l0 ++ tags_for aa rules).
Proof.
  revert rule_dict l0.
  induction rules as [|rule rules IH]; intros rule_dict l0 Hl0; simpl.
  - by rewrite app_nil_r.
  - rewrite (IH _ _ (append_targets_lookup _ _ _ _ _ Hl0)).
    by rewrite <- app_assoc.
Qed.

Lemma apply_at_materialize (rules : list (ModificationRule M))
    (pos : Position M) :
  apply_at (build_rule_dict rules ∅) pos = materialize rules pos.
Proof.
  destruct pos as [aa site_mods]. unfold apply_at, materialize. simpl.
  rewrite (build_rule_dict_lookup rules ∅ aa []); [|done]. simpl.
  destruct (tags_for aa rules) as [|tag tags]; simpl; [done|].
  by destruct site_mods as [[|site_mod site_mods]|].
Qed.

(** The loop by index rewrites every position, each one once. *)
Lemma apply_positions_app
    (rule_dict : gmap string (list (ModificationTag M)))
    (done_ todo : list (Position M)) :
  apply_positions rule_dict (length done_) (length todo) (done_ ++ todo)
  = done_ ++ (apply_at rule_dict <$> todo).
Proof.
  revert done_. induction todo as [|pos todo IH]; intros done_; simpl; [done|].
  rewrite list_lookup_middle by done.
  assert (match rule_dict !! pos.1 with
          | Some _ => <[length done_ := apply_at rule_dict pos]>
                        (done_ ++ pos :: todo)
          | None => done_ ++ pos :: todo
          end = (done_ ++ [apply_at rule_dict pos]) ++ todo) as ->.
  { rewrite <- app_assoc. simpl.
    destruct (rule_dict !! pos.1) eqn:Hrd.
    - rewrite insert_app_r_alt by done. by rewrite Nat.sub_diag.
    - unfold apply_at. destruct pos as [aa site_mods]. simpl in Hrd.
      by rewrite Hrd. }
  replace (S (length done_)) with (length (done_ ++ [apply_at rule_dict pos]))
    by (rewrite length_app; simpl; lia).
  rewrite IH. by rewrite <- app_assoc.
Qed.

Lemma apply_positions_map
    (rule_dict : gmap string (list (ModificationTag M)))
    (seq : list (Position M)) :
  apply_positions rule_dict 0 (length seq) seq = apply_at rule_dict <$> seq.
Proof. apply (apply_positions_app rule_dict [] seq). Qed.

End ApplyFacts.

(** ** Facts about renaming *)

Section RenameFacts.
Context {M : Type} `{!MassArith M} `{!Environment M}.
Variable mapping : gmap string string.

(** On a list of rules the helper raises at the first element, whatever
    the mapping. *)
Lemma rename_rules_raises (rule : ModificationRule M)
    (rules : list (ModificationRule M)) :
  rename_rules mapping (rule :: rules) = Err no_value_error.
Proof. reflexivity. Qed.

Lemma rename_fixed_raises (self : Peptidoform M) :
  truthy (fixed_modifications (properties self)) = true →
  rename_fixed mapping self = (Err no_value_error, self).
Proof.
  intros Ht. unfold rename_fixed, act_bind, act_get. rewrite Ht.
  by destruct (fixed_modifications (properties self)) as [[|rule rules]|].
Qed.

Lemma rename_fixed_skips (self : Peptidoform M) :
  truthy (fixed_modifications (properties self)) = false →
  rename_fixed mapping self = (Ok tt, self).
Proof.
  intros Ht. unfold rename_fixed, act_bind, act_get. by rewrite Ht.
Qed.

(** Whatever [value] returns on an element, the helper puts a bare tag
    in the place of an element whose label is a key. *)
Lemma rename_list_replaces_by_tag {A} (value_of : A → result string)
    (item : A) (label new_label : string) (tag : ModificationTag M) :
  value_of item = Ok label →
  mapping !! label = Some new_label →
  process_tag_tokens new_label = Ok tag →
  _rename_modification_list value_of mapping [item] = Ok [inl tag].
Proof.
  intros Hv Hm Ht. unfold _rename_modification_list.
  rewrite Hv. simpl. rewrite Hm, Ht. done.
Qed.

(** The steps before the last one leave [fixed_modifications] alone. *)
Lemma rename_positions_fixed (i n : nat) (self : Peptidoform M) :
  fixed_modifications (properties (rename_positions mapping i n self).2)
  = fixed_modifications (properties self).
Proof.
  revert i self. induction n as [|n IH]; intros i self; simpl; [done|].
  unfold act_bind at 1. simpl. unfold act_bind at 1.
  destruct (parsed_sequence self !! i) as [[aa mods]|]; simpl.
  - destruct (truthy mods); simpl.
    + unfold act_bind at 1, act_lift.
      destruct (rename_tags mapping (default [] mods)) as [new_mods|e];
        simpl; [|done].
      by rewrite IH.
    + by rewrite IH.
  - by rewrite IH.
Qed.

Lemma rename_n_term_fixed (self : Peptidoform M) :
  fixed_modifications (properties (rename_n_term mapping self).2)
  = fixed_modifications (properties self).
Proof.
  unfold rename_n_term, act_bind, act_get, act_lift.
  destruct (truthy (n_term (properties self))); [|done].
  by destruct (rename_tags mapping _).
Qed.

Lemma rename_c_term_fixed (self : Peptidoform M) :
  fixed_modifications (properties (rename_c_term mapping self).2)
  = fixed_modifications (properties self).
Proof.
  unfold rename_c_term, act_bind, act_get, act_lift.
  destruct (truthy (c_term (properties self))); [|done].
  by destruct (rename_tags mapping _).
Qed.

Lemma rename_unlocalized_fixed (self : Peptidoform M) :
  fixed_modifications (properties (rename_unlocalized mapping self).2)
  = fixed_modifications (properties self).
Proof.
  unfold rename_unlocalized, act_bind, act_get, act_lift.
  destruct (truthy (Some (unlocalized_modifications (properties self))));
    [|done].
  by destruct (rename_tags mapping _).
Qed.

Lemma rename_labile_fixed (self : Peptidoform M) :
  fixed_modifications (properties (rename_labile mapping self).2)
  = fixed_modifications (properties self).
Proof.
  unfold rename_labile, act_bind, act_get, act_lift.
  destruct (truthy (Some (labile_modifications (properties self))));
    [|done].
  by destruct (rename_tags mapping _).
Qed.

(** A step that keeps [fixed_modifications], followed by steps that end
    in an exception, ends in an exception. *)
Lemma act_bind_raises {A B} (c : action A) (k : A → action B)
    (fixed : option (list (ModificationRule M))) (self : Peptidoform M) :
  (∀ s, fixed_modifications (properties (c s).2)
        = fixed_modifications (properties s)) →
  (∀ a s, fixed_modifications (properties s) = fixed →
          ∃ e, (k a s).1 = Err e
               ∧ fixed_modifications (properties (k a s).2) = fixed) →
  fixed_modifications (properties self) = fixed →
  ∃ e, (act_bind c k self).1 = Err e
       ∧ fixed_modifications (properties (act_bind c k self).2) = fixed.
Proof.
  intros Hc Hk Hself. unfold act_bind. specialize (Hc self).
  destruct (c self) as [[a|e] s]; simpl in *.
  - apply Hk. by rewrite Hc.
  - exists e. by rewrite Hc.
Qed.

Lemma rename_modifications_steps (self : Peptidoform M) :
  rename_modifications mapping self
  = act_bind (rename_positions mapping 0 (length (parsed_sequence self)))
      (λ _, act_bind (rename_n_term mapping)
      (λ _, act_bind (rename_c_term mapping)
      (λ _, act_bind (rename_unlocalized mapping)
      (λ _, act_bind (rename_labile mapping)
      (λ _, rename_fixed mapping))))) self.
Proof. reflexivity. Qed.

(** With a rule in [fixed_modifications] the call never returns: it
    raises, and the rules are as they were. *)
Lemma rename_modifications_raises (self : Peptidoform M) :
  truthy (fixed_modifications (properties self)) = true →
  ∃ e, (rename_modifications mapping self).1 = Err e
       ∧ fixed_modifications
           (properties (rename_modifications mapping self).2)
         = fixed_modifications (properties self).
Proof.
  intros Ht. rewrite rename_modifications_steps.
  apply act_bind_raises; [apply rename_positions_fixed| |done].
  intros _ s1 H1.
  apply act_bind_raises; [apply rename_n_term_fixed| |done].
  intros _ s2 H2.
  apply act_bind_raises; [apply rename_c_term_fixed| |done].
  intros _ s3 H3.
  apply act_bind_raises; [apply rename_unlocalized_fixed| |done].
  intros _ s4 H4.
  apply act_bind_raises; [apply rename_labile_fixed| |done].
  intros _ s5 H5.
  rewrite rename_fixed_raises by (by rewrite H5).
  by exists no_value_error.
Qed.

(** When every label can be made into a tag, the helper on a list of
    tags replaces exactly the tags whose label is a key. *)
Variable fresh : string → ModificationTag M.
Hypothesis process_tag_tokens_fresh :
  ∀ label, process_tag_tokens label = Ok (fresh label).

Lemma rename_tags_Ok (mods : list (ModificationTag M)) :
  rename_tags mapping mods = Ok (renamed_tags fresh mapping mods).
Proof.
  unfold rename_tags.
  assert (_rename_modification_list tag_value_of mapping mods
          = Ok ((λ tag, match mapping !! tag_value tag with
                        | Some new_label => inl (fresh new_label)
                        | None => inr tag
                        end) <$> mods)) as ->.
  { induction mods as [|tag mods IH]; simpl; [done|].
    rewrite IH.
    destruct (mapping !! tag_value tag) as [new_label|]; simpl; [|done].
    by rewrite process_tag_tokens_fresh. }
  simpl. f_equal. unfold renamed_tags.
  rewrite <- list_fmap_compose. apply list_fmap_ext.
  intros _ tag _. unfold renamed_tag. simpl.
  by destruct (mapping !! tag_value tag).
Qed.

Lemma rename_positions_app (done_ todo : list (Position M))
    (self : Peptidoform M) :
  parsed_sequence self = done_ ++ todo →
  rename_positions mapping (length done_) (length todo) self
  = (Ok tt,
     set_parsed_sequence
       (done_ ++ (renamed_position fresh mapping <$> todo)) self).
Proof.
  revert done_ self.
  induction todo as [|pos todo IH]; intros done_ self Hseq; simpl.
  - unfold act_ret. f_equal. destruct self. simpl in *. by subst.
  - unfold act_bind at 1. simpl. unfold act_bind at 1.
    rewrite Hseq, list_lookup_middle by done.
    destruct pos as [aa mods].
    assert (∀ s : Peptidoform M,
              parsed_sequence s
              = (done_ ++ [renamed_position fresh mapping (aa, mods)]) ++ todo →
              properties s = properties self →
              rename_positions mapping (S (length done_)) (length todo) s
              = (Ok tt,
                 set_parsed_sequence
                   (done_ ++ renamed_position fresh mapping (aa, mods)
                      :: (renamed_position fresh mapping <$> todo)) self))
      as Hnext.
    { intros s Hs Hprops.
      replace (S (length done_))
        with (length (done_ ++ [renamed_position fresh mapping (aa, mods)]))
        by (rewrite length_app; simpl; lia).
      rewrite (IH _ s Hs). f_equal. unfold set_parsed_sequence.
      rewrite Hprops. by rewrite <- app_assoc. }
    destruct (truthy mods) eqn:Ht.
    + unfold act_bind at 1, act_lift. rewrite rename_tags_Ok. simpl.
      apply Hnext; [|done]. simpl. rewrite Hseq.
      rewrite insert_app_r_alt by done. rewrite Nat.sub_diag. simpl.
      rewrite <- app_assoc. simpl. unfold renamed_position. simpl.
      by destruct mods as [[|tag tags]|].
    + simpl. apply Hnext; [|done]. rewrite Hseq, <- app_assoc. simpl.
      by destruct mods as [[|tag tags]|].
Qed.

Lemma rename_n_term_Ok (self : Peptidoform M) :
  rename_n_term mapping self
  = (Ok tt,
     set_n_term (renamed_tags fresh mapping <$> n_term (properties self)) self).
Proof.
  unfold rename_n_term, act_bind, act_get, act_lift, act_modify, act_ret.
  destruct self as [seq [nt ct us ls fx cs iso]]. simpl.
  destruct nt as [[|tag tags]|]; simpl; [done| |done].
  by rewrite rename_tags_Ok.
Qed.

Lemma rename_c_term_Ok (self : Peptidoform M) :
  rename_c_term mapping self
  = (Ok tt,
     set_c_term (renamed_tags fresh mapping <$> c_term (properties self)) self).
Proof.
  unfold rename_c_term, act_bind, act_get, act_lift, act_modify, act_ret.
  destruct self as [seq [nt ct us ls fx cs iso]]. simpl.
  destruct ct as [[|tag tags]|]; simpl; [done| |done].
  by rewrite rename_tags_Ok.
Qed.

Lemma rename_unlocalized_Ok (self : Peptidoform M) :
  rename_unlocalized mapping self
  = (Ok tt,
     set_unlocalized_modifications
       (renamed_tags fresh mapping
          (unlocalized_modifications (properties self))) self).
Proof.
  unfold rename_unlocalized, act_bind, act_get, act_lift, act_modify, act_ret.
  destruct self as [seq [nt ct us ls fx cs iso]]. simpl.
  destruct us as [|tag tags]; simpl; [done|].
  by rewrite rename_tags_Ok.
Qed.

Lemma rename_labile_Ok (self : Peptidoform M) :
  rename_labile mapping self
  = (Ok tt,
     set_labile_modifications
       (renamed_tags fresh mapping
          (labile_modifications (properties self))) self).
Proof.
  unfold rename_labile, act_bind, act_get, act_lift, act_modify, act_ret.
  destruct self as [seq [nt ct us ls fx cs iso]]. simpl.
  destruct ls as [|tag tags]; simpl; [done|].
  by rewrite rename_tags_Ok.
Qed.

(** Without a rule in [fixed_modifications] the call returns, and every
    tag of the five tag locations is visited once: replaced when its
    label is a key, kept otherwise. *)
Lemma rename_modifications_Ok (self : Peptidoform M) :
  truthy (fixed_modifications (properties self)) = false →
  rename_modifications mapping self = (Ok tt, renamed fresh mapping self).
Proof.
  intros Ht. rewrite rename_modifications_steps.
  pose proof (rename_positions_app [] (parsed_sequence self) self eq_refl)
    as Hpos.
  simpl in Hpos. unfold act_bind. rewrite Hpos.
  rewrite rename_n_term_Ok, rename_c_term_Ok, rename_unlocalized_Ok,
    rename_labile_Ok.
  rewrite rename_fixed_skips; [|by destruct self as [seq []]].
  by destruct self as [seq []].
Qed.

End RenameFacts.

(** ** Which exception a failed computation raises *)

Section FailureFacts.
Context {M : Type} `{!MassArith M} `{!Environment M}.
Context {V : Type}.
Variable what : string.
Variable v_add : V → V → V.
Variable tag_attr : ModificationTag M → result V.
Variable std_aa : gmap string V.
Variable n_start c_start : V.

Lemma add_tags_Err (acc : V) (tags : list (ModificationTag M)) (e : exn) :
  add_tags what v_add tag_attr acc tags = Err e →
  ∃ tag e0, tag ∈ tags ∧ tag_attr tag = Err e0 ∧ e = wrapped what tag e0.
Proof.
  revert acc. induction tags as [|tag tags IH]; intros acc; simpl; [done|].
  destruct (tag_attr tag) as [v|e0] eqn:Hv; simpl.
  - intros Hrest. destruct (IH _ Hrest) as (tag' & e' & Hin & He' & ->).
    exists tag', e'. split; [by right|done].
  - intros He. exists tag, e0. split; [by left|]. split; [done|].
    unfold wrapped. by destruct (is_lookup_failure e0); injection He as <-.
Qed.

Lemma add_optional_tags_Err (acc : V)
    (tags : option (list (ModificationTag M))) (e : exn) :
  add_optional_tags what v_add tag_attr acc tags = Err e →
  ∃ tag e0, tag ∈ default [] tags ∧ tag_attr tag = Err e0
            ∧ e = wrapped what tag e0.
Proof.
  unfold add_optional_tags.
  destruct tags as [[|tag tags]|]; simpl truthy; cbv iota; [done| |done].
  apply add_tags_Err.
Qed.

Lemma position_value_Err (fixed_rules : gmap string V) (aa : string)
    (tags : option (list (ModificationTag M))) (e : exn) :
  position_value what v_add tag_attr std_aa fixed_rules (aa, tags) = Err e →
  (std_aa !! aa = None ∧ e = unresolved_residue what aa)
  ∨ ∃ tag e0, tag ∈ default [] tags ∧ tag_attr tag = Err e0
              ∧ e = wrapped what tag e0.
Proof.
  unfold position_value. destruct (std_aa !! aa) as [base|]; simpl.
  - intros Htags. right. by eapply add_optional_tags_Err.
  - intros [= <-]. by left.
Qed.

Lemma position_values_Err (fixed_rules : gmap string V)
    (seq : list (Position M)) (e : exn) :
  position_values what v_add tag_attr std_aa fixed_rules seq = Err e →
  ∃ i pos, seq !! i = Some pos
           ∧ position_value what v_add tag_attr std_aa fixed_rules pos = Err e.
Proof.
  induction seq as [|pos seq IH]; simpl; [done|].
  destruct (position_value what v_add tag_attr std_aa fixed_rules pos)
    as [v|e'] eqn:Hpos; simpl.
  - destruct (position_values what v_add tag_attr std_aa fixed_rules seq)
      as [vs|e'] eqn:Hrest; simpl; [done|].
    intros [= ->]. destruct (IH eq_refl) as (i & pos' & Hi & Hpos').
    by exists (S i), pos'.
  - intros [= ->]. by exists 0%nat, pos.
Qed.

Lemma record_targets_Err (rule : ModificationRule M) (tgts : list string)
    (fr0 : gmap string V) (e : exn) :
  record_targets tag_attr rule tgts fr0 = Err e →
  tgts ≠ [] ∧ tag_attr (modification_tag rule) = Err e.
Proof.
  revert fr0. induction tgts as [|t tgts IH]; intros fr0; simpl; [done|].
  destruct (tag_attr (modification_tag rule)) as [v|e'] eqn:Hv; simpl.
  - intros Hrest. by destruct (IH _ Hrest).
  - by intros [= ->].
Qed.

(** The exception of a fixed rule's tag reaches the caller as it is. *)
Lemma record_rules_Err (rules : list (ModificationRule M))
    (fr0 : gmap string V) (e : exn) :
  record_rules tag_attr rules fr0 = Err e →
  ∃ rule, rule ∈ rules ∧ targets rule ≠ []
          ∧ tag_attr (modification_tag rule) = Err e.
Proof.
  revert fr0. induction rules as [|rule rules IH]; intros fr0; simpl; [done|].
  destruct (record_targets tag_attr rule (targets rule) fr0)
    as [fr1|e'] eqn:Hrule; simpl.
  - intros Hrest. destruct (IH _ Hrest) as (rule' & Hin & Hrule').
    exists rule'. split; [by right|done].
  - intros [= ->]. exists rule. split; [by left|].
    by eapply record_targets_Err.
Qed.

(** Every way in which the per-position accessor fails. *)
Lemma sequential_Err (self : Peptidoform M) (e : exn) :
  sequential what v_add tag_attr std_aa n_start c_start self = Err e →
  (fixed_modifications (properties self) = None ∧ e = not_iterable_error)
  ∨ (∃ rules rule,
       fixed_modifications (properties self) = Some rules
       ∧ rule ∈ rules ∧ targets rule ≠ []
       ∧ tag_attr (modification_tag rule) = Err e)
  ∨ (∃ tag e0,
       (tag ∈ default [] (n_term (properties self))
        ∨ tag ∈ default [] (c_term (properties self))
        ∨ ∃ i aa tags, parsed_sequence self !! i = Some (aa, tags)
                       ∧ tag ∈ default [] tags)
       ∧ tag_attr tag = Err e0 ∧ e = wrapped what tag e0)
  ∨ (∃ i aa tags, parsed_sequence self !! i = Some (aa, tags)
                  ∧ std_aa !! aa = None ∧ e = unresolved_residue what aa).
Proof.
  unfold sequential.
  destruct (build_fixed_rules tag_attr (fixed_modifications (properties self)))
    as [fr|e'] eqn:Hfr; simpl.
  2:{ intros [= ->].
      destruct (fixed_modifications (properties self)) as [rules|];
        simpl in Hfr.
      - right. left. apply record_rules_Err in Hfr as (rule & ? & ? & ?).
        by exists rules, rule.
      - left. by injection Hfr as <-. }
  destruct (add_optional_tags what v_add tag_attr n_start
              (n_term (properties self))) as [n|e'] eqn:Hn; simpl.
  2:{ intros [= ->]. right. right. left.
      apply add_optional_tags_Err in Hn as (tag & e0 & Hin & He0 & ->).
      exists tag, e0. auto. }
  destruct (position_values what v_add tag_attr std_aa fr
              (parsed_sequence self)) as [rs|e'] eqn:Hrs; simpl.
  2:{ intros [= ->].
      apply position_values_Err in Hrs as (i & [aa tags] & Hi & Hpos).
      apply position_value_Err in Hpos
        as [[Hnone ->]|(tag & e0 & Hin & He0 & ->)].
      - right. right. right. by exists i, aa, tags.
      - right. right. left. exists tag, e0. split; [|done].
        right. right. by exists i, aa, tags. }
  destruct (add_optional_tags what v_add tag_attr c_start
              (c_term (properties self))) as [c|e'] eqn:Hc; simpl; [done|].
  intros [= ->]. right. right. left.
  apply add_optional_tags_Err in Hc as (tag & e0 & Hin & He0 & ->).
  exists tag, e0. auto.
Qed.

(** The aggregate fails as the per-position accessor does, or on a
    labile or unlocalized tag. *)
Lemma total_Err (v_total : list V → V) (self : Peptidoform M) (e : exn) :
  total what v_add tag_attr std_aa n_start c_start v_total self = Err e →
  sequential what v_add tag_attr std_aa n_start c_start self = Err e
  ∨ ∃ tag e0,
      (tag ∈ labile_modifications (properties self)
       ∨ tag ∈ unlocalized_modifications (properties self))
      ∧ tag_attr tag = Err e0 ∧ e = wrapped what tag e0.
Proof.
  unfold total.
  destruct (sequential what v_add tag_attr std_aa n_start c_start self)
    as [l|e'] eqn:Hl; simpl; [|intros [= ->]; by left].
  destruct (add_tags what v_add tag_attr (v_total l)
              (labile_modifications (properties self)))
    as [acc|e'] eqn:Hacc; simpl.
  - intros Hun. right.
    apply add_tags_Err in Hun as (tag & e0 & Hin & He0 & ->).
    exists tag, e0. auto.
  - intros [= ->]. right.
    apply add_tags_Err in Hacc as (tag & e0 & Hin & He0 & ->).
    exists tag, e0. auto.
Qed.

Lemma resolve_to_elem (tags : list (ModificationTag M)) (vs : list V)
    (tag : ModificationTag M) :
  resolve_to tag_attr tags vs → tag ∈ tags → ∃ v, tag_attr tag = Ok v.
Proof.
  intros Hres Hin. apply list_elem_of_lookup in Hin as [i Hi].
  destruct (Forall2_lookup_l _ _ _ _ _ Hres Hi) as (v & _ & Hv). eauto.
Qed.

Lemma record_targets_Ok (rule : ModificationRule M) (tgts : list string)
    (fr0 fr : gmap string V) :
  record_targets tag_attr rule tgts fr0 = Ok fr →
  tgts ≠ [] → ∃ v, tag_attr (modification_tag rule) = Ok v.
Proof.
  destruct tgts as [|t tgts]; [done|]. simpl. intros Hrec _.
  apply bind_Ok in Hrec as (v & Hv & _). eauto.
Qed.

Lemma record_rules_Ok (rules : list (ModificationRule M))
    (fr0 fr : gmap string V) (rule : ModificationRule M) :
  record_rules tag_attr rules fr0 = Ok fr →
  rule ∈ rules → targets rule ≠ [] →
  ∃ v, tag_attr (modification_tag rule) = Ok v.
Proof.
  revert fr0. induction rules as [|r rules IH]; intros fr0 Hrec Hin Htgts.
  - inversion Hin.
  - simpl in Hrec. apply bind_Ok in Hrec as (fr1 & Hfr1 & Hrec).
    apply elem_of_cons in Hin as [->|Hin].
    + by eapply record_targets_Ok.
    + by eapply IH.
Qed.

(** A result is returned only when nothing failed to resolve: the tag
    of every rule that has a target, every terminal tag, every residue
    and every tag on a residue. *)
Lemma sequential_Ok_resolves (self : Peptidoform M) (l : list V) :
  sequential what v_add tag_attr std_aa n_start c_start self = Ok l →
  (∃ rules, fixed_modifications (properties self) = Some rules
            ∧ ∀ rule, rule ∈ rules → targets rule ≠ [] →
                      ∃ v, tag_attr (modification_tag rule) = Ok v)
  ∧ (∀ tag, tag ∈ default [] (n_term (properties self)) →
            ∃ v, tag_attr tag = Ok v)
  ∧ (∀ tag, tag ∈ default [] (c_term (properties self)) →
            ∃ v, tag_attr tag = Ok v)
  ∧ (∀ i aa tags, parsed_sequence self !! i = Some (aa, tags) →
       is_Some (std_aa !! aa)
       ∧ ∀ tag, tag ∈ default [] tags → ∃ v, tag_attr tag = Ok v).
Proof.
  intros Hl.
  apply sequential_Ok in Hl as (fr & n & rs & c & Hfr & Hn & Hrs & Hc & _).
  split; [|split; [|split]].
  - destruct (fixed_modifications (properties self)) as [rules|]; [|done].
    exists rules. split; [done|]. intros rule Hin Htgts.
    by eapply record_rules_Ok.
  - apply add_optional_tags_Ok in Hn as (vs & Hvs & _).
    intros tag Hin. by eapply resolve_to_elem.
  - apply add_optional_tags_Ok in Hc as (vs & Hvs & _).
    intros tag Hin. by eapply resolve_to_elem.
  - intros i aa tags Hi. apply position_values_Ok in Hrs.
    destruct (Forall2_lookup_l _ _ _ _ _ Hrs Hi) as (v & _ & Hpos).
    apply position_value_Ok in Hpos as (base & vs & Hbase & Hvs & _).
    split; [by exists base|]. intros tag Hin. by eapply resolve_to_elem.
Qed.

End FailureFacts.

(** ** Aggregates and per-position results *)



(** ** The result of [sequential_composition] *)

(** When [fixed_modifications] is a list whose lookup can be built and
    every residue and tag resolves, the result is the N-terminus entry
    from [{H: 1}], one entry per residue in order, and the C-terminus
    entry from [{H: 1, O: 1}]. *)
Lemma sequential_composition_shape {M : Type} `{!MassArith M}
    `{!Environment M} (self : Peptidoform M)
    (fixed_rules : gmap string Composition)
    (ns cs residues : list Composition) :
  build_fixed_rules tag_composition (fixed_modifications (properties self))
    = Ok fixed_rules →
  resolve_to tag_composition (default [] (n_term (properties self))) ns →
  Forall2 (λ pos v,
      position_value "composition" comp_add tag_composition std_aa_comp
        fixed_rules pos = Ok v)
    (parsed_sequence self) residues →
  resolve_to tag_composition (default [] (c_term (properties self))) cs →
  ∃ l,
    sequential_composition self = Ok l
    ∧ length l = (length (parsed_sequence self) + 2)%nat
    ∧ l = fold_left comp_add ns {[ "H" := 1 ]} :: residues
          ++ [fold_left comp_add cs {[ "H" := 1; "O" := 1 ]}].
Proof.
  intros Hfr Hn Hrs Hc. eexists. split; [|split; [|done]].
  - by eapply sequential_shape.
  - apply Forall2_length in Hrs. simpl. rewrite length_app. simpl. lia.
Qed.

(** After [apply_fixed_modifications] has run on a peptidoform with
    fixed rules, [fixed_modifications] is [None] and both per-position
    accessors raise. *)
Lemma sequential_after_apply_raises {M : Type} `{!MassArith M}
    `{!Environment M} (self : Peptidoform M) :
  truthy (fixed_modifications (properties self)) = true →
  sequential_composition (apply_fixed_modifications self)
  = Err not_iterable_error
  ∧ sequential_theoretical_mass (apply_fixed_modifications self)
    = Err not_iterable_error.
Proof.
  intros Hfixed.
  assert (fixed_modifications (properties (apply_fixed_modifications self))
          = None) as Hnone.
  { unfold apply_fixed_modifications. by rewrite Hfixed. }
  split; by apply sequential_fixed_None.
Qed.

(** C2: on the peptidoform [<[Carbamidomethyl]@C>AC], whose residues and
    tag all resolve, [sequential_composition] returns four entries (the
    N-terminus, A, C with the rule, the C-terminus); after
    [apply_fixed_modifications] the residues and tags still resolve (the
    tag now sits on the residue C), and [sequential_composition] raises
    a TypeError instead of returning a list of four compositions. *)
Theorem sequential_composition_after_apply_fixed :
  sequential_composition ex_fixed
  = Ok [ {[ "H" := 1 ]};
         {[ "C" := 3; "H" := 5; "N" := 1; "O" := 1 ]};
         {[ "C" := 5; "H" := 8; "N" := 2; "O" := 2; "S" := 1 ]};
         {[ "H" := 1; "O" := 1 ]} ]
  ∧ parsed_sequence (apply_fixed_modifications ex_fixed)
    = [("A", None); ("C", Some [ex_tag "Carbamidomethyl"])]
  ∧ position_values "composition" comp_add tag_composition std_aa_comp ∅
      (parsed_sequence (apply_fixed_modifications ex_fixed))
    = Ok [ {[ "C" := 3; "H" := 5; "N" := 1; "O" := 1 ]};
           {[ "C" := 5; "H" := 8; "N" := 2; "O" := 2; "S" := 1 ]} ]
  ∧ sequential_composition (apply_fixed_modifications ex_fixed)
    = Err not_iterable_error.
Proof. repeat split; reflexivity. Qed.

(** ** Fixed rules and local tags at one position *)

(** C3, counterexample: at the residue C of
    [<[Carbamidomethyl]@C>AC[Oxidation]], a target of the rule that
    carries a tag of its own, the composition and the mass the code
    returns differ from the ones that leave the rule out. *)
Lemma fixed_rule_not_skipped_at_modified_position :
  sequential_composition ex_fixed_and_local = Ok ex_fixed_and_local_compositions
  ∧ sequential_theoretical_mass ex_fixed_and_local
    = Ok [1008; 71037; 176025; 17003]
  ∧ ex_fixed_and_local_compositions !! 2%nat
    ≠ Some (position_unless_local comp_add
              {[ "C" := 3; "H" := 5; "N" := 1; "O" := 1; "S" := 1 ]}
              (Some {[ "C" := 2; "H" := 3; "N" := 1; "O" := 1 ]})
              [ {[ "O" := 1 ]} ])
  ∧ [1008; 71037; 176025; 17003] !! 2%nat
    ≠ Some (position_unless_local Z.add 103009 (Some 57021) [15995]).
Proof.
  split; [reflexivity|]. split; [reflexivity|]. split.
  - intros Heq.
    assert (∀ a b : Composition,
              Some a = Some b → comp_getitem a "N" = comp_getitem b "N")
      as Hn by (by intros a b [= ->]).
    apply Hn in Heq. discriminate Heq.
  - intros Heq. discriminate Heq.
Qed.

(** C3, amended: at every position whose residue is a target of a fixed
    rule, whether the position carries local tags or not, the value
    [sequential_composition] and [sequential_theoretical_mass] return
    for the position is the residue's table entry, plus the value of
    the last rule of [fixed_modifications] that targets the residue
    (that rule's only: an earlier rule on the same residue adds
    nothing), plus the position's local tags in order. *)
Theorem fixed_rule_applied_at_every_target_position {M : Type}
    `{!MassArith M} `{!Environment M} (self : Peptidoform M) (i : nat)
    (aa : string) (tags : option (list (ModificationTag M)))
    (rules : list (ModificationRule M)) (rule : ModificationRule M) :
  parsed_sequence self !! i = Some (aa, tags) →
  fixed_modifications (properties self) = Some rules →
  rule ∈ rules →
  aa ∈ targets rule →
  (∀ cl, sequential_composition self = Ok cl →
     ∃ last_rule base fixed locals,
       last (rules_for aa rules) = Some last_rule
       ∧ tag_composition (modification_tag last_rule) = Ok fixed
       ∧ std_aa_comp !! aa = Some base
       ∧ resolve_to tag_composition (default [] tags) locals
       ∧ cl !! S i = Some (fold_left comp_add locals (comp_add base fixed)))
  ∧ (∀ ml, sequential_theoretical_mass self = Ok ml →
       ∃ last_rule base fixed locals,
         last (rules_for aa rules) = Some last_rule
         ∧ tag_mass (modification_tag last_rule) = Ok fixed
         ∧ std_aa_mass !! aa = Some base
         ∧ resolve_to tag_mass (default [] tags) locals
         ∧ ml !! S i = Some (fold_left madd locals (madd base fixed))).
Proof.
  intros Hi Hfixed Hrule Haa.
  assert (∃ last_rule, last (rules_for aa rules) = Some last_rule)
    as [last_rule Hlast].
  { apply last_is_Some. intros Hnil.
    assert (rule ∈ rules_for aa rules) as Hin
      by (by apply list_elem_of_filter).
    rewrite Hnil in Hin. inversion Hin. }
  split.
  - intros cl Hcl.
    pose proof Hcl as Hbuild.
    apply sequential_Ok in Hbuild as (fr & _ & _ & _ & Hfr & _).
    rewrite Hfixed in Hfr.
    destruct (sequential_position _ _ _ _ _ _ _ _ _ _ _ Hcl Hi)
      as (rules' & base & locals & Hrules' & Hbase & Hlocals & Hlookup).
    rewrite Hfixed in Hrules'. injection Hrules' as <-.
    rewrite Hlast in Hlookup. simpl in Hlookup.
    destruct (tag_composition (modification_tag last_rule)) as [v|e] eqn:Hv.
    + by exists last_rule, base, v, locals.
    + exfalso. simpl in Hfr.
      by eapply (record_rules_unresolved tag_composition).
  - intros ml Hml.
    pose proof Hml as Hbuild.
    apply sequential_Ok in Hbuild as (fr & _ & _ & _ & Hfr & _).
    rewrite Hfixed in Hfr.
    destruct (sequential_position _ _ _ _ _ _ _ _ _ _ _ Hml Hi)
      as (rules' & base & locals & Hrules' & Hbase & Hlocals & Hlookup).
    rewrite Hfixed in Hrules'. injection Hrules' as <-.
    rewrite Hlast in Hlookup. simpl in Hlookup.
    destruct (tag_mass (modification_tag last_rule)) as [v|e] eqn:Hv.
    + by exists last_rule, base, v, locals.
    + exfalso. simpl in Hfr.
      by eapply (record_rules_unresolved tag_mass).
Qed.

Lemma fixed_rule_applied_at_every_target_position_witness :
  (∃ last_rule base fixed locals,
     last (rules_for "C" ex_shadowing_rules) = Some last_rule
     ∧ tag_composition (modification_tag last_rule) = Ok fixed
     ∧ std_aa_comp !! "C" = Some base
     ∧ resolve_to tag_composition [ex_tag "Acetyl"] locals
     ∧ ex_shadowed_compositions !! 1%nat
       = Some (fold_left comp_add locals (comp_add base fixed)))
  ∧ (∃ last_rule base fixed locals,
       last (rules_for "C" ex_shadowing_rules) = Some last_rule
       ∧ tag_mass (modification_tag last_rule) = Ok fixed
       ∧ std_aa_mass !! "C" = Some base
       ∧ resolve_to tag_mass [ex_tag "Acetyl"] locals
       ∧ [1008; 202041; 17003] !! 1%nat
         = Some (fold_left madd locals (madd base fixed)))
  ∧ (∃ last_rule base fixed locals,
       last (rules_for "C" ex_two_rules) = Some last_rule
       ∧ tag_mass (modification_tag last_rule) = Ok fixed
       ∧ std_aa_mass !! "C" = Some base
       ∧ resolve_to tag_mass [] locals
       ∧ [1008; 160030; 204056; 17003] !! 1%nat
         = Some (fold_left madd locals (madd base fixed))).
Proof.
  pose proof (fixed_rule_applied_at_every_target_position ex_shadowed 0 "C"
                (Some [ex_tag "Acetyl"]) ex_shadowing_rules
                (ex_rule "Oxidation" ["C"])) as Hat.
  destruct Hat as [Hc Hm].
  - reflexivity.
  - reflexivity.
  - apply list_elem_of_here.
  - apply list_elem_of_here.
  - pose proof (fixed_rule_applied_at_every_target_position ex_overlap 0 "C"
                  None ex_two_rules (ex_rule "Oxidation" ["C"])) as Hbare.
    destruct Hbare as [_ Hm'].
    + reflexivity.
    + reflexivity.
    + apply list_elem_of_here.
    + apply list_elem_of_here.
    + split; [|split].
      * refine (Hc ex_shadowed_compositions _). reflexivity.
      * refine (Hm [1008; 202041; 17003] _). reflexivity.
      * refine (Hm' [1008; 160030; 204056; 17003] _). reflexivity.
Defined.

(** ** Last write wins in the fixed-rule lookup *)

(** C4: the lookup that [sequential_composition] and
    [sequential_theoretical_mass] build from a rule list holds, for
    every residue, the composition (the mass) of the last rule that
    targets it and nothing for a residue no rule targets; and the entry
    the accessor returns for a position is the residue's table entry,
    plus that one value when there is one, plus the local tags. *)
Theorem fixed_rules_last_write_wins {M : Type} `{!MassArith M}
    `{!Environment M} :
  (∀ (rules : list (ModificationRule M)) fr aa,
     build_fixed_rules tag_composition (Some rules) = Ok fr →
     fr !! aa = last (rules_for aa rules)
                ≫= λ rule, ok_value (tag_composition (modification_tag rule)))
  ∧ (∀ (rules : list (ModificationRule M)) fr aa,
       build_fixed_rules tag_mass (Some rules) = Ok fr →
       fr !! aa = last (rules_for aa rules)
                  ≫= λ rule, ok_value (tag_mass (modification_tag rule)))
  ∧ (∀ (self : Peptidoform M) cl i aa tags,
       sequential_composition self = Ok cl →
       parsed_sequence self !! i = Some (aa, tags) →
       ∃ rules base locals,
         fixed_modifications (properties self) = Some rules
         ∧ std_aa_comp !! aa = Some base
         ∧ resolve_to tag_composition (default [] tags) locals
         ∧ cl !! S i
           = Some (fold_left comp_add locals
                     match last (rules_for aa rules)
                           ≫= λ rule,
                               ok_value (tag_composition (modification_tag rule))
                     with
                     | Some v => comp_add base v
                     | None => base
                     end))
  ∧ (∀ (self : Peptidoform M) ml i aa tags,
       sequential_theoretical_mass self = Ok ml →
       parsed_sequence self !! i = Some (aa, tags) →
       ∃ rules base locals,
         fixed_modifications (properties self) = Some rules
         ∧ std_aa_mass !! aa = Some base
         ∧ resolve_to tag_mass (default [] tags) locals
         ∧ ml !! S i
           = Some (fold_left madd locals
                     match last (rules_for aa rules)
                           ≫= λ rule, ok_value (tag_mass (modification_tag rule))
                     with
                     | Some v => madd base v
                     | None => base
                     end)).
Proof.
  repeat split.
  - intros rules fr aa. apply build_fixed_rules_lookup.
  - intros rules fr aa. apply build_fixed_rules_lookup.
  - intros self cl i aa tags. apply sequential_position.
  - intros self ml i aa tags. apply sequential_position.
Qed.

Lemma fixed_rules_last_write_wins_witness :
  (({[ "C" := 57021; "M" := 57021 ]} : gmap string Z) !! "C"
   = last (rules_for "C" ex_two_rules)
     ≫= λ rule, ok_value (tag_mass (modification_tag rule)))
  ∧ ∃ rules base locals,
      fixed_modifications (properties ex_overlap) = Some rules
      ∧ std_aa_mass !! "C" = Some base
      ∧ resolve_to tag_mass (default [] None) locals
      ∧ [1008; 160030; 204056; 17003] !! 1%nat
        = Some (fold_left madd locals
                  match last (rules_for "C" rules)
                        ≫= λ rule, ok_value (tag_mass (modification_tag rule))
                  with
                  | Some v => madd base v
                  | None => base
                  end).
Proof.
  pose proof (@fixed_rules_last_write_wins Z _ _) as (_ & Hm & _ & Hp).
  split.
  - refine (Hm ex_two_rules _ "C" _). reflexivity.
  - refine (Hp ex_overlap [1008; 160030; 204056; 17003] 0%nat "C" None _ _).
    + reflexivity.
    + reflexivity.
Defined.

(** ** Renaming modifications *)

(** C5: on [<[cmm]@C>AC[cmm]] with the mapping [cmm -> Carbamidomethyl]
    the call raises an AttributeError when it reaches
    [fixed_modifications]; the tag on the residue has been replaced by
    then, the tag of the fixed rule still has the old label.  With an
    empty mapping, which names no label at all, the call on
    [<[Carbamidomethyl]@C>AC] raises the same error. *)
Theorem rename_modifications_fixed_rule :
  (rename_modifications {[ "cmm" := "Carbamidomethyl" ]} ex_rename).1
  = Err no_value_error
  ∧ parsed_sequence
      (rename_modifications {[ "cmm" := "Carbamidomethyl" ]} ex_rename).2
    = [("A", None); ("C", Some [ex_tag "Carbamidomethyl"])]
  ∧ fixed_modifications
      (properties
         (rename_modifications {[ "cmm" := "Carbamidomethyl" ]} ex_rename).2)
    = Some [ex_rule "cmm" ["C"]]
  ∧ rename_modifications ∅ ex_fixed = (Err no_value_error, ex_fixed).
Proof. split; [|split; [|split]]; reflexivity. Qed.

(** ** Materialising fixed modifications *)


(** ** Unresolved tags and residues *)

(** C7: on [<[cmm]@C>AC], whose fixed rule has a label that does not
    resolve, the four accessors raise the KeyError of the lookup itself,
    which is no ModificationException and carries no message of the
    module; the same label on a residue, [AC[cmm]], raises the
    ModificationException with the label in its message. *)
Theorem unresolved_fixed_rule_raises_lookup_error :
  sequential_composition ex_fixed_unknown = Err (Raise KeyError "cmm")
  ∧ composition ex_fixed_unknown = Err (Raise KeyError "cmm")
  ∧ sequential_theoretical_mass ex_fixed_unknown = Err (Raise KeyError "cmm")
  ∧ theoretical_mass ex_fixed_unknown = Err (Raise KeyError "cmm")
  ∧ issubclass KeyError ModificationException = false
  ∧ sequential_composition ex_local_unknown
    = Err (Raise ModificationException
                 "Cannot resolve composition for modification cmm.")
  ∧ theoretical_mass ex_local_unknown
    = Err (Raise ModificationException
                 "Cannot resolve mass for modification cmm.").
Proof. repeat (split; [reflexivity|]). reflexivity. Qed.

(** ** Construction and the error classes *)

(** C8, counterexample: the error that construction raises on the text
    [<13C>AC], which encodes an isotope label, is a NotImplementedError,
    and that class is no subclass of the domain-error category. *)
Lemma isotope_error_outside_domain_category :
  __init__ "<13C>AC"
  = Err (Raise NotImplementedError
               "Peptidoforms with isotopes are currently not supported.")
  ∧ issubclass NotImplementedError PSMUtilsException = false
  ∧ issubclass NotImplementedError PeptidoformException = false.
Proof. repeat split; reflexivity. Qed.

(** C8, amended: when the parsed properties carry isotopes, construction
    returns no object and raises the builtin NotImplementedError, which
    lies outside the domain-error category; the two error kinds the
    module declares for residues and modifications are subclasses of
    PeptidoformException, itself a PSMUtilsException. *)
Theorem construction_rejects_isotopes {M : Type} `{!MassArith M}
    `{!Environment M} (text : string) (seq : list (Position M))
    (props : Properties M) :
  parse text = Ok (seq, props) →
  isotopes props ≠ [] →
  __init__ text
  = Err (Raise NotImplementedError
               "Peptidoforms with isotopes are currently not supported.")
  ∧ issubclass NotImplementedError PSMUtilsException = false
  ∧ issubclass NotImplementedError PeptidoformException = false
  ∧ issubclass AmbiguousResidueException PeptidoformException = true
  ∧ issubclass ModificationException PeptidoformException = true
  ∧ issubclass PeptidoformException PSMUtilsException = true.
Proof.
  intros Hparse Hiso. repeat split; try reflexivity.
  unfold __init__. rewrite Hparse. simpl.
  by destruct (isotopes props).
Qed.

Lemma construction_rejects_isotopes_witness :
  __init__ "<13C>AC"
  = Err (Raise NotImplementedError
               "Peptidoforms with isotopes are currently not supported.")
  ∧ issubclass NotImplementedError PSMUtilsException = false
  ∧ issubclass NotImplementedError PeptidoformException = false
  ∧ issubclass AmbiguousResidueException PeptidoformException = true
  ∧ issubclass ModificationException PeptidoformException = true
  ∧ issubclass PeptidoformException PSMUtilsException = true.
Proof.
  refine (construction_rejects_isotopes "<13C>AC"
            [("A", None); ("C", None)]
            {| n_term := None; c_term := None;
               unlocalized_modifications := []; labile_modifications := [];
               fixed_modifications := Some []; charge_state := None;
               isotopes := ["13C"] |} _ _).
  - reflexivity.
  - discriminate.
Defined.

(** ** Mass over charge *)

(** C9: [theoretical_mz] returns [None], without computing a mass, when
    there is no charge state or the charge is zero; with a charge [c]
    other than zero, and hydrogen-1 found in the element table with mass
    [h], it returns [(theoretical_mass + h * c) / c], and raises what
    [theoretical_mass] raises. *)
Theorem theoretical_mz_by_charge {M : Type} `{!MassArith M}
    `{!Environment M} (self : Peptidoform M) :
  (charge_state (properties self) = None → theoretical_mz self = Ok None)
  ∧ (∀ cs, charge_state (properties self) = Some cs → charge cs = 0 →
           theoretical_mz self = Ok None)
  ∧ (∀ cs isotopes_of_H h abundance,
       charge_state (properties self) = Some cs →
       charge cs ≠ 0 →
       nist_mass !! "H" = Some isotopes_of_H →
       isotopes_of_H !! 1 = Some (h, abundance) →
       theoretical_mz self
       = let* m := theoretical_mass self in
         Ok (Some (mdiv_int (madd m (mmul_int h (charge cs))) (charge cs)))).
Proof.
  unfold theoretical_mz, precursor_charge. repeat split.
  - by intros ->.
  - intros cs -> ->. done.
  - intros cs iso h ab -> Hc Hiso Hh.
    rewrite decide_False by done.
    unfold proton_mass. rewrite Hiso, Hh. done.
Qed.

Lemma theoretical_mz_by_charge_witness :
  theoretical_mz ex_fixed = Ok None
  ∧ theoretical_mz ex_zero_charge = Ok None
  ∧ theoretical_mz ex_many
    = let* m := theoretical_mass ex_many in
      Ok (Some (mdiv_int (madd m (mmul_int 1008 2)) 2)).
Proof.
  split; [|split].
  - refine (proj1 (theoretical_mz_by_charge ex_fixed) _). reflexivity.
  - refine (proj1 (proj2 (theoretical_mz_by_charge ex_zero_charge))
              {| charge := 0 |} _ _); reflexivity.
  - refine (proj2 (proj2 (theoretical_mz_by_charge ex_many))
              {| charge := 2 |} {[ 1 := (1008, 1000); 2 := (2014, 0) ]}
              1008 1000 _ _ _ _).
    + reflexivity.
    + discriminate.
    + reflexivity.
    + reflexivity.
Defined.

(** ** Equality and hash *)

(** C10: comparing a peptidoform with an object that has no attribute
    [proforma] raises (the handler calls [NotImplemented], which raises
    a TypeError) and returns no boolean; comparing two peptidoforms
    returns whether their canonical texts are equal, the hash is the
    hash of the canonical text, and so both depend on the canonical
    texts alone. *)
Theorem equality_and_hash_by_text {M : Type} `{!MassArith M}
    `{!Environment M} :
  (∀ (self : Peptidoform M) o e,
     getattr_proforma o = Err e →
     __eq__ self o
     = Err (Raise TypeError "'NotImplementedType' object is not callable"))
  ∧ (∀ self other : Peptidoform M,
       __eq__ self (PeptidoformObject other)
       = Ok (bool_decide (proforma self = proforma other)))
  ∧ (∀ self : Peptidoform M, __hash__ self = py_hash (proforma self))
  ∧ (∀ p p' q q' : Peptidoform M,
       proforma p = proforma p' →
       proforma q = proforma q' →
       __eq__ p (PeptidoformObject q) = __eq__ p' (PeptidoformObject q')
       ∧ __hash__ p = __hash__ p').
Proof.
  split; [|split; [|split]].
  - intros self o e. unfold __eq__.
    destruct o as [p|[v|]]; simpl; [done..|]. by intros [= <-].
  - done.
  - done.
  - intros p p' q q' Hp Hq. unfold __eq__, __hash__. simpl.
    by rewrite Hp, Hq.
Qed.

Lemma equality_and_hash_by_text_witness :
  __eq__ ex_bare (ForeignObject None)
  = Err (Raise TypeError "'NotImplementedType' object is not callable")
  ∧ ex_bare ≠ ex_bare'
  ∧ __eq__ ex_bare (PeptidoformObject ex_fixed)
    = __eq__ ex_bare' (PeptidoformObject ex_fixed)
  ∧ __hash__ ex_bare = __hash__ ex_bare'.
Proof.
  pose proof (@equality_and_hash_by_text Z _ _) as (Hforeign & _ & _ & Htext).
  split; [|split].
  - refine (Hforeign ex_bare (ForeignObject None) _ _). reflexivity.
  - discriminate.
  - refine (Htext ex_bare ex_bare' ex_fixed ex_fixed _ _); reflexivity.
Defined.

(** ** The documented examples *)

Example doc_apply_fixed_modifications :
  proforma ex_doc_fixed = "<[Carbamidomethyl]@C>ATPEILTCNSIGCLK"
  ∧ proforma (apply_fixed_modifications ex_doc_fixed)
    = "ATPEILTC[Carbamidomethyl]NSIGC[Carbamidomethyl]LK"
  ∧ fixed_modifications (properties (apply_fixed_modifications ex_doc_fixed))
    = None.
Proof. repeat (split; [reflexivity|]). reflexivity. Qed.

Example doc_add_fixed_modifications :
  (add_fixed_modifications [("Carbamidomethyl", ["C"])] ex_doc_plain).1 = Ok tt
  ∧ proforma
      (add_fixed_modifications [("Carbamidomethyl", ["C"])] ex_doc_plain).2
    = "<[Carbamidomethyl]@C>ATPEILTCNSIGCLK".
Proof. split; reflexivity. Qed.

Example doc_rename_modifications :
  proforma ex_doc_rename = "[ac]-PEPTC[cmm]IDEK"
  ∧ (rename_modifications
       {[ "ac" := "Acetyl"; "cmm" := "Carbamidomethyl" ]} ex_doc_rename).1
    = Ok tt
  ∧ proforma
      (rename_modifications
         {[ "ac" := "Acetyl"; "cmm" := "Carbamidomethyl" ]} ex_doc_rename).2
    = "[Acetyl]-PEPTC[Carbamidomethyl]IDEK".
Proof. repeat (split; [reflexivity|]). reflexivity. Qed.

(** Two rules on one residue: the resolver counts the later one only,
    materialisation writes both tags. *)
Example overlapping_rules :
  sequential_theoretical_mass ex_overlap = Ok [1008; 160030; 204056; 17003]
  ∧ parsed_sequence (apply_fixed_modifications ex_overlap)
    = [ ("C", Some [ex_tag "Oxidation"; ex_tag "Carbamidomethyl"]);
        ("M", Some [ex_tag "Oxidation"; ex_tag "Carbamidomethyl"]) ].
Proof. split; reflexivity. Qed.

(** ** When the accessors return *)

Section ReturnFacts.
Context {M : Type} `{!MassArith M} `{!Environment M}.
Context {V : Type}.
Variable what : string.
Variable v_add : V → V → V.
Variable tag_attr : ModificationTag M → result V.
Variable std_aa : gmap string V.
Variable n_start c_start : V.
Variable v_total : list V → V.

Lemma resolve_to_returns (tags : list (ModificationTag M)) :
  (∃ vs, resolve_to tag_attr tags vs)
  ↔ Forall (λ tag, is_Ok (tag_attr tag)) tags.
Proof.
  induction tags as [|tag tags IH].
  - split; [constructor|]. intros _. exists []. constructor.
  - split.
    + intros (vs & Hvs). inversion Hvs as [|? v ? vs' Hv Hvs']; subst.
      constructor; [by exists v|]. apply IH. by exists vs'.
    + intros Hall. inversion Hall as [|? ? [v Hv] Hrest]; subst.
      apply IH in Hrest as [vs Hvs]. exists (v :: vs). by constructor.
Qed.

Lemma add_tags_returns (acc : V) (tags : list (ModificationTag M)) :
  is_Ok (add_tags what v_add tag_attr acc tags)
  ↔ Forall (λ tag, is_Ok (tag_attr tag)) tags.
Proof.
  rewrite <- resolve_to_returns. unfold is_Ok. split.
  - intros [r Hr]. apply add_tags_Ok in Hr as (vs & Hvs & _). by exists vs.
  - intros [vs Hvs]. exists (fold_left v_add vs acc).
    apply add_tags_Ok. by exists vs.
Qed.

Lemma add_optional_tags_returns (acc : V)
    (tags : option (list (ModificationTag M))) :
  is_Ok (add_optional_tags what v_add tag_attr acc tags)
  ↔ Forall (λ tag, is_Ok (tag_attr tag)) (default [] tags).
Proof.
  rewrite <- resolve_to_returns. unfold is_Ok. split.
  - intros [r Hr]. apply add_optional_tags_Ok in Hr as (vs & Hvs & _).
    by exists vs.
  - intros [vs Hvs]. exists (fold_left v_add vs acc).
    apply add_optional_tags_Ok. by exists vs.
Qed.

Lemma record_targets_returns (rule : ModificationRule M)
    (tgts : list string) (fr0 : gmap string V) :
  is_Ok (record_targets tag_attr rule tgts fr0)
  ↔ (tgts ≠ [] → is_Ok (tag_attr (modification_tag rule))).
Proof.
  revert fr0. induction tgts as [|t tgts IH]; intros fr0; simpl.
  - split; [done|]. intros _. by exists fr0.
  - split.
    + intros [fr Hfr] _. apply bind_Ok in Hfr as (v & Hv & _). by exists v.
    + intros Hv. destruct Hv as [v Hv]; [done|]. rewrite Hv. simpl.
      apply IH. intros _. by exists v.
Qed.

Lemma record_rules_returns (rules : list (ModificationRule M))
    (fr0 : gmap string V) :
  is_Ok (record_rules tag_attr rules fr0)
  ↔ Forall (λ rule, targets rule ≠ [] →
                    is_Ok (tag_attr (modification_tag rule))) rules.
Proof.
  revert fr0. induction rules as [|rule rules IH]; intros fr0; simpl.
  - split; [constructor|]. intros _. by exists fr0.
  - split.
    + intros [fr Hfr]. apply bind_Ok in Hfr as (fr1 & Hfr1 & Hrest).
      constructor.
      * apply (record_targets_returns rule (targets rule) fr0). by exists fr1.
      * apply (IH fr1). by exists fr.
    + intros Hall. inversion Hall as [|? ? Hrule Hrest]; subst.
      apply (record_targets_returns rule (targets rule) fr0) in Hrule
        as [fr1 Hfr1].
      rewrite Hfr1. simpl. by apply IH.
Qed.

Lemma position_value_returns (fixed_rules : gmap string V)
    (pos : Position M) :
  is_Ok (position_value what v_add tag_attr std_aa fixed_rules pos)
  ↔ is_Some (std_aa !! pos.1)
    ∧ Forall (λ tag, is_Ok (tag_attr tag)) (default [] pos.2).
Proof.
  destruct pos as [aa tags]. simpl.
  rewrite <- resolve_to_returns. unfold is_Ok. split.
  - intros [r Hr].
    apply position_value_Ok in Hr as (base & vs & Hbase & Hvs & _).
    split; [by exists base|by exists vs].
  - intros [[base Hbase] [vs Hvs]]. eexists.
    apply position_value_Ok. by exists base, vs.
Qed.

Lemma position_values_returns (fixed_rules : gmap string V)
    (seq : list (Position M)) :
  is_Ok (position_values what v_add tag_attr std_aa fixed_rules seq)
  ↔ Forall (λ pos : Position M, is_Some (std_aa !! pos.1)) seq
    ∧ Forall (λ tag, is_Ok (tag_attr tag)) (position_tags seq).
Proof.
  induction seq as [|pos seq IH].
  - simpl. split; [by split; constructor|]. intros _. by exists [].
  - change (position_tags (pos :: seq))
      with (default [] pos.2 ++ position_tags seq).
    rewrite Forall_cons, Forall_app. simpl. split.
    + intros [vs Hvs]. apply bind_Ok in Hvs as (v & Hv & Hrest).
      apply bind_Ok in Hrest as (vs' & Hvs' & _).
      assert (is_Ok (position_value what v_add tag_attr std_aa
                       fixed_rules pos)) as Hpos by (by exists v).
      apply position_value_returns in Hpos as [Hres Htags].
      assert (is_Ok (position_values what v_add tag_attr std_aa
                       fixed_rules seq)) as Hseq by (by exists vs').
      apply IH in Hseq as [Hres' Htags']. done.
    + intros [[Hres Hres'] [Htags Htags']].
      destruct (proj2 (position_value_returns fixed_rules pos)
                  (conj Hres Htags)) as [v Hv].
      destruct (proj2 IH (conj Hres' Htags')) as [vs Hvs].
      exists (v :: vs). by rewrite Hv, Hvs.
Qed.

(** The per-position accessor returns exactly when everything it reads
    can be read. *)
Lemma sequential_returns (self : Peptidoform M) :
  is_Ok (sequential what v_add tag_attr std_aa n_start c_start self)
  ↔ all_resolve tag_attr std_aa self.
Proof.
  unfold all_resolve, local_tags. rewrite !Forall_app. split.
  - intros [l Hl].
    apply sequential_Ok in Hl as (fr & n & rs & c & Hfr & Hn & Hrs & Hc & _).
    destruct (fixed_modifications (properties self)) as [rules|]; [|done].
    split; [|split; [split; [|split]|]].
    + exists rules. split; [done|].
      apply (record_rules_returns rules ∅). by exists fr.
    + apply (add_optional_tags_returns n_start). by exists n.
    + apply (position_values_returns fr). by exists rs.
    + apply (add_optional_tags_returns c_start). by exists c.
    + apply (position_values_returns fr). by exists rs.
  - intros ((rules & Hfixed & Hrules) & (Hn & Hpos & Hc) & Hres).
    apply (record_rules_returns rules ∅) in Hrules as [fr Hfr].
    apply (add_optional_tags_returns n_start) in Hn as [n Hn].
    apply (add_optional_tags_returns c_start) in Hc as [c Hc].
    destruct (proj2 (position_values_returns fr (parsed_sequence self))
                (conj Hres Hpos)) as [rs Hrs].
    exists (n :: rs ++ [c]). apply sequential_Ok.
    exists fr, n, rs, c. by rewrite Hfixed.
Qed.

(** The aggregate returns exactly when, in addition, the labile and the
    unlocalized tags resolve. *)
Lemma total_returns (self : Peptidoform M) :
  is_Ok (total what v_add tag_attr std_aa n_start c_start v_total self)
  ↔ all_resolve tag_attr std_aa self
    ∧ Forall (λ tag, is_Ok (tag_attr tag)) (sequence_wide_tags self).
Proof.
  rewrite <- sequential_returns. unfold sequence_wide_tags.
  rewrite Forall_app, <- !resolve_to_returns. unfold is_Ok. split.
  - intros [r Hr]. apply total_Ok in Hr as (l & ls & us & Hl & Hls & Hus & _).
    split; [by exists l|]. split; [by exists ls|by exists us].
  - intros ([l Hl] & [ls Hls] & [us Hus]). eexists. apply total_Ok.
    by exists l, ls, us.
Qed.

End ReturnFacts.

(** X1: each of the four accessors returns a result exactly when
    everything it reads can be read: [fixed_modifications] is a list,
    the tag of every fixed rule that has a target resolves, every
    terminal tag and every tag on a residue resolves, every residue is
    in the table, and, for the two aggregates, every labile and
    unlocalized tag resolves.  A fixed rule without targets is never
    read. *)
Theorem accessors_return_iff_all_resolve {M : Type} `{!MassArith M}
    `{!Environment M} (self : Peptidoform M) :
  (is_Ok (sequential_composition self)
   ↔ all_resolve tag_composition std_aa_comp self)
  ∧ (is_Ok (sequential_theoretical_mass self)
     ↔ all_resolve tag_mass std_aa_mass self)
  ∧ (is_Ok (composition self)
     ↔ all_resolve tag_composition std_aa_comp self
       ∧ Forall (λ tag, is_Ok (tag_composition tag))
           (sequence_wide_tags self))
  ∧ (is_Ok (theoretical_mass self)
     ↔ all_resolve tag_mass std_aa_mass self
       ∧ Forall (λ tag, is_Ok (tag_mass tag)) (sequence_wide_tags self)).
Proof.
  split; [|split; [|split]].
  - apply sequential_returns.
  - apply sequential_returns.
  - apply total_returns.
  - apply total_returns.
Qed.

Lemma accessors_return_iff_all_resolve_witness :
  all_resolve tag_composition std_aa_comp ex_many
  ∧ (all_resolve tag_mass std_aa_mass ex_many
     ∧ Forall (λ tag, is_Ok (tag_mass tag)) (sequence_wide_tags ex_many)).
Proof.
  pose proof (accessors_return_iff_all_resolve ex_many)
    as (Hc & _ & _ & Hm).
  split.
  - apply (proj1 Hc). exists ex_many_compositions. reflexivity.
  - apply (proj1 Hm). exists 496130. reflexivity.
Defined.

(** ** Which exception, once the fixed-rule lookup is built *)

Section DomainErrorFacts.
Context {M : Type} `{!MassArith M} `{!Environment M}.
Context {V : Type}.
Variable what : string.
Variable v_add : V → V → V.
Variable tag_attr : ModificationTag M → result V.
Variable std_aa : gmap string V.
Variable n_start c_start : V.
Variable v_total : list V → V.

Lemma position_tags_elem (seq : list (Position M)) (i : nat) (aa : string)
    (tags : option (list (ModificationTag M))) (tag : ModificationTag M) :
  seq !! i = Some (aa, tags) → tag ∈ default [] tags →
  tag ∈ position_tags seq.
Proof.
  intros Hi Hin. unfold position_tags. apply list_elem_of_bind.
  exists (aa, tags). split; [done|]. apply list_elem_of_lookup. eauto.
Qed.

Lemma sequential_Err_built (self : Peptidoform M) (e : exn) :
  is_Ok (build_fixed_rules tag_attr (fixed_modifications (properties self))) →
  sequential what v_add tag_attr std_aa n_start c_start self = Err e →
  (∃ tag e0, tag ∈ local_tags self ∧ tag_attr tag = Err e0
             ∧ e = wrapped what tag e0)
  ∨ (∃ pos, pos ∈ parsed_sequence self ∧ std_aa !! pos.1 = None
            ∧ e = unresolved_residue what pos.1).
Proof.
  intros [fr Hfr] Herr.
  apply sequential_Err in Herr
    as [[Hnone _]|[(rules & rule & Hfixed & Hin & Htgts & Hrule)
       |[(tag & e0 & Hwhere & He0 & ->)|(i & aa & tags & Hi & Hnone & ->)]]].
  - by rewrite Hnone in Hfr.
  - rewrite Hfixed in Hfr. simpl in Hfr.
    destruct (record_rules_Ok _ _ _ _ _ Hfr Hin Htgts) as [v Hv].
    by rewrite Hv in Hrule.
  - left. exists tag, e0. split; [|done]. unfold local_tags.
    destruct Hwhere as [Hn|[Hc|(i & aa & tags & Hi & Hin)]].
    + apply elem_of_app. by left.
    + apply elem_of_app. right. apply elem_of_app. by right.
    + apply elem_of_app. right. apply elem_of_app. left.
      by eapply position_tags_elem.
  - right. exists (aa, tags). split; [|done].
    apply list_elem_of_lookup. eauto.
Qed.

(** With the lookup built and tags that fail only by a lookup failure,
    every exception of the aggregate is one of the module's own. *)
Lemma total_Err_domain (self : Peptidoform M) (e : exn) :
  is_Ok (build_fixed_rules tag_attr (fixed_modifications (properties self))) →
  Forall (fails_by_lookup tag_attr)
    (local_tags self ++ sequence_wide_tags self) →
  sequential what v_add tag_attr std_aa n_start c_start self = Err e
  ∨ total what v_add tag_attr std_aa n_start c_start v_total self = Err e →
  issubclass (exn_class e) PeptidoformException = true
  ∧ ((∃ tag, tag ∈ local_tags self ++ sequence_wide_tags self
             ∧ ¬ is_Ok (tag_attr tag)
             ∧ e = unresolved_modification what tag)
     ∨ (∃ pos, pos ∈ parsed_sequence self ∧ std_aa !! pos.1 = None
               ∧ e = unresolved_residue what pos.1)).
Proof.
  intros Hbuilt Hlookup Herr.
  assert ((∃ tag e0, tag ∈ local_tags self ++ sequence_wide_tags self
                     ∧ tag_attr tag = Err e0 ∧ e = wrapped what tag e0)
          ∨ (∃ pos, pos ∈ parsed_sequence self ∧ std_aa !! pos.1 = None
                    ∧ e = unresolved_residue what pos.1)) as Hkind.
  { assert (sequential what v_add tag_attr std_aa n_start c_start self = Err e
            ∨ ∃ tag e0, tag ∈ sequence_wide_tags self ∧ tag_attr tag = Err e0
                        ∧ e = wrapped what tag e0) as [Hseq|Hwide].
    { destruct Herr as [Hseq|Htot]; [by left|].
      apply total_Err in Htot as [Hseq|(tag & e0 & Hin & He0 & ->)];
        [by left|].
      right. exists tag, e0. split; [|done]. unfold sequence_wide_tags.
      apply elem_of_app. destruct Hin; auto. }
    - apply (sequential_Err_built self e Hbuilt) in Hseq
        as [(tag & e0 & Hin & He0 & ->)|Hres]; [|by right].
      left. exists tag, e0. split; [|done]. apply elem_of_app. by left.
    - destruct Hwide as (tag & e0 & Hin & He0 & ->).
      left. exists tag, e0. split; [|done]. apply elem_of_app. by right. }
  destruct Hkind as [(tag & e0 & Hin & He0 & ->)|(pos & Hin & Hnone & ->)].
  - rewrite Forall_forall in Hlookup.
    unfold wrapped. rewrite (Hlookup tag Hin e0 He0).
    split; [reflexivity|]. left. exists tag. split; [done|]. split; [|done].
    intros [v Hv]. by rewrite Hv in He0.
  - split; [reflexivity|]. right. by exists pos.
Qed.

Lemma position_values_app (fixed_rules : gmap string V)
    (l1 l2 : list (Position M)) :
  position_values what v_add tag_attr std_aa fixed_rules (l1 ++ l2)
  = let* v1 := position_values what v_add tag_attr std_aa fixed_rules l1 in
    let* v2 := position_values what v_add tag_attr std_aa fixed_rules l2 in
    Ok (v1 ++ v2).
Proof.
  induction l1 as [|pos l1 IH]; simpl.
  - by destruct (position_values what v_add tag_attr std_aa fixed_rules l2).
  - destruct (position_value what v_add tag_attr std_aa fixed_rules pos);
      simpl; [|done].
    rewrite IH.
    destruct (position_values what v_add tag_attr std_aa fixed_rules l1);
      simpl; [|done].
    by destruct (position_values what v_add tag_attr std_aa fixed_rules l2).
Qed.

(** The first residue that is not in the table, with nothing failing
    before it, decides the exception. *)
Lemma sequential_first_unresolved_residue (self : Peptidoform M)
    (before after : list (Position M)) (aa : string)
    (tags : option (list (ModificationTag M))) :
  parsed_sequence self = before ++ (aa, tags) :: after →
  is_Ok (build_fixed_rules tag_attr (fixed_modifications (properties self))) →
  Forall (λ tag, is_Ok (tag_attr tag))
    (default [] (n_term (properties self)) ++ position_tags before) →
  Forall (λ pos : Position M, is_Some (std_aa !! pos.1)) before →
  std_aa !! aa = None →
  sequential what v_add tag_attr std_aa n_start c_start self
  = Err (unresolved_residue what aa)
  ∧ total what v_add tag_attr std_aa n_start c_start v_total self
    = Err (unresolved_residue what aa).
Proof.
  intros Hseq [fr Hfr] Htags Hres Hnone.
  apply Forall_app in Htags as [Hn Hbefore].
  apply (add_optional_tags_returns what v_add tag_attr n_start) in Hn
    as [n Hn].
  destruct (proj2 (position_values_returns what v_add tag_attr std_aa
                     fr before) (conj Hres Hbefore)) as [vs Hvs].
  assert (sequential what v_add tag_attr std_aa n_start c_start self
          = Err (unresolved_residue what aa)) as Herr.
  { unfold sequential. rewrite Hfr. simpl. rewrite Hn. simpl.
    rewrite Hseq, position_values_app, Hvs. simpl. by rewrite Hnone. }
  split; [done|]. unfold total. by rewrite Herr.
Qed.

(** What a returned per-position list looks like at its two ends. *)
Lemma sequential_ends (self : Peptidoform M) (l : list V) :
  sequential what v_add tag_attr std_aa n_start c_start self = Ok l →
  length l = (length (parsed_sequence self) + 2)%nat
  ∧ ∃ ns cs,
      resolve_to tag_attr (default [] (n_term (properties self))) ns
      ∧ resolve_to tag_attr (default [] (c_term (properties self))) cs
      ∧ l !! 0%nat = Some (fold_left v_add ns n_start)
      ∧ l !! S (length (parsed_sequence self))
        = Some (fold_left v_add cs c_start).
Proof.
  intros Hl. split; [by eapply sequential_length|].
  apply sequential_Ok in Hl as (fr & n & rs & c & _ & Hn & Hrs & Hc & ->).
  apply add_optional_tags_Ok in Hn as (ns & Hns & ->).
  apply add_optional_tags_Ok in Hc as (cs & Hcs & ->).
  apply position_values_Ok, Forall2_length in Hrs.
  exists ns, cs. repeat split; [done..|].
  simpl. rewrite Hrs. by apply list_lookup_middle.
Qed.

End DomainErrorFacts.

(** X2: when the fixed-rule lookup can be built and the tags of the
    peptidoform fail, if at all, with an AttributeError or a KeyError,
    every exception that the four accessors raise is a
    PeptidoformException: either a ModificationException whose message
    names a tag of the peptidoform that does not resolve, or an
    AmbiguousResidueException whose message names a residue of the
    sequence that is not in the table. *)
Theorem failures_are_domain_errors {M : Type} `{!MassArith M}
    `{!Environment M} (self : Peptidoform M) (e : exn) :
  (is_Ok (build_fixed_rules tag_composition
            (fixed_modifications (properties self))) →
   Forall (fails_by_lookup tag_composition)
     (local_tags self ++ sequence_wide_tags self) →
   sequential_composition self = Err e ∨ composition self = Err e →
   issubclass (exn_class e) PeptidoformException = true
   ∧ ((∃ tag, tag ∈ local_tags self ++ sequence_wide_tags self
              ∧ ¬ is_Ok (tag_composition tag)
              ∧ e = Raise ModificationException
                      ("Cannot resolve composition for modification "
                         +:+ tag_value tag +:+ "."))
      ∨ (∃ pos, pos ∈ parsed_sequence self ∧ std_aa_comp !! pos.1 = None
                ∧ e = Raise AmbiguousResidueException
                        ("Cannot resolve composition for amino acid "
                           +:+ pos.1 +:+ "."))))
  ∧ (is_Ok (build_fixed_rules tag_mass
              (fixed_modifications (properties self))) →
     Forall (fails_by_lookup tag_mass)
       (local_tags self ++ sequence_wide_tags self) →
     sequential_theoretical_mass self = Err e ∨ theoretical_mass self = Err e →
     issubclass (exn_class e) PeptidoformException = true
     ∧ ((∃ tag, tag ∈ local_tags self ++ sequence_wide_tags self
                ∧ ¬ is_Ok (tag_mass tag)
                ∧ e = Raise ModificationException
                        ("Cannot resolve mass for modification "
                           +:+ tag_value tag +:+ "."))
        ∨ (∃ pos, pos ∈ parsed_sequence self ∧ std_aa_mass !! pos.1 = None
                  ∧ e = Raise AmbiguousResidueException
                          ("Cannot resolve mass for amino acid "
                             +:+ pos.1 +:+ ".")))).
Proof.
  split.
  - intros Hbuilt Hlookup Herr.
    exact (total_Err_domain "composition" comp_add tag_composition
             std_aa_comp _ _ comp_sum self e Hbuilt Hlookup Herr).
  - intros Hbuilt Hlookup Herr.
    exact (total_Err_domain "mass" madd tag_mass std_aa_mass _ _ py_sum
             self e Hbuilt Hlookup Herr).
Qed.

Lemma failures_are_domain_errors_witness :
  issubclass ModificationException PeptidoformException = true
  ∧ ((∃ tag, tag ∈ local_tags ex_local_unknown
                   ++ sequence_wide_tags ex_local_unknown
             ∧ ¬ is_Ok (tag_mass tag)
             ∧ Raise ModificationException
                 "Cannot resolve mass for modification cmm."
               = Raise ModificationException
                   ("Cannot resolve mass for modification "
                      +:+ tag_value tag +:+ "."))
     ∨ (∃ pos, pos ∈ parsed_sequence ex_local_unknown
               ∧ std_aa_mass !! pos.1 = None
               ∧ Raise ModificationException
                   "Cannot resolve mass for modification cmm."
                 = Raise AmbiguousResidueException
                     ("Cannot resolve mass for amino acid "
                        +:+ pos.1 +:+ "."))).
Proof.
  refine (proj2 (failures_are_domain_errors ex_local_unknown
                   (Raise ModificationException
                          "Cannot resolve mass for modification cmm."))
            _ _ _).
  - exists ∅. reflexivity.
  - repeat constructor. intros e He. injection He as <-. reflexivity.
  - right. reflexivity.
Defined.

(** X3: when the lookup is built, the N-terminal tags resolve and
    everything on the residues before it resolves, the first residue
    that is not in the table makes the four accessors raise
    AmbiguousResidueException with that residue in the message, whatever
    tags the residue carries and whatever follows it. *)
Theorem first_unresolved_residue_raises {M : Type} `{!MassArith M}
    `{!Environment M} (self : Peptidoform M)
    (before after : list (Position M)) (aa : string)
    (tags : option (list (ModificationTag M))) :
  parsed_sequence self = before ++ (aa, tags) :: after →
  (is_Ok (build_fixed_rules tag_composition
            (fixed_modifications (properties self))) →
   Forall (λ tag, is_Ok (tag_composition tag))
     (default [] (n_term (properties self)) ++ position_tags before) →
   Forall (λ pos : Position M, is_Some (std_aa_comp !! pos.1)) before →
   std_aa_comp !! aa = None →
   sequential_composition self
   = Err (Raise AmbiguousResidueException
                ("Cannot resolve composition for amino acid " +:+ aa +:+ "."))
   ∧ composition self
     = Err (Raise AmbiguousResidueException
                  ("Cannot resolve composition for amino acid "
                     +:+ aa +:+ ".")))
  ∧ (is_Ok (build_fixed_rules tag_mass
              (fixed_modifications (properties self))) →
     Forall (λ tag, is_Ok (tag_mass tag))
       (default [] (n_term (properties self)) ++ position_tags before) →
     Forall (λ pos : Position M, is_Some (std_aa_mass !! pos.1)) before →
     std_aa_mass !! aa = None →
     sequential_theoretical_mass self
     = Err (Raise AmbiguousResidueException
                  ("Cannot resolve mass for amino acid " +:+ aa +:+ "."))
     ∧ theoretical_mass self
       = Err (Raise AmbiguousResidueException
                    ("Cannot resolve mass for amino acid " +:+ aa +:+ "."))).
Proof.
  intros Hseq. split.
  - intros Hbuilt Htags Hres Hnone.
    exact (sequential_first_unresolved_residue "composition" comp_add
             tag_composition std_aa_comp _ _ comp_sum self before after aa
             tags Hseq Hbuilt Htags Hres Hnone).
  - intros Hbuilt Htags Hres Hnone.
    exact (sequential_first_unresolved_residue "mass" madd tag_mass
             std_aa_mass _ _ py_sum self before after aa tags Hseq Hbuilt
             Htags Hres Hnone).
Qed.

Lemma first_unresolved_residue_raises_witness :
  sequential_composition ex_unknown_residue
  = Err (Raise AmbiguousResidueException
               "Cannot resolve composition for amino acid X.")
  ∧ composition ex_unknown_residue
    = Err (Raise AmbiguousResidueException
                 "Cannot resolve composition for amino acid X.").
Proof.
  refine (proj1 (first_unresolved_residue_raises ex_unknown_residue
                   [("A", None)] [("C", None)] "X" (Some [ex_tag "cmm"]) _)
            _ _ _ _).
  - reflexivity.
  - exists ∅. reflexivity.
  - constructor.
  - repeat constructor. by exists {[ "C" := 3; "H" := 5; "N" := 1; "O" := 1 ]}.
  - reflexivity.
Defined.

(** X4: a list that [sequential_composition] or
    [sequential_theoretical_mass] returns has two entries more than the
    sequence has residues; its first entry is [{H: 1}] (its mass) with
    the N-terminal tags added in order, its last entry is [{H: 1, O: 1}]
    (its mass) with the C-terminal tags added in order; and the two
    lists have the same length. *)
Theorem per_position_results_ends {M : Type} `{!MassArith M}
    `{!Environment M} (self : Peptidoform M) :
  (∀ cl, sequential_composition self = Ok cl →
     length cl = (length (parsed_sequence self) + 2)%nat
     ∧ ∃ ns cs,
         resolve_to tag_composition (default [] (n_term (properties self))) ns
         ∧ resolve_to tag_composition
             (default [] (c_term (properties self))) cs
         ∧ cl !! 0%nat = Some (fold_left comp_add ns {[ "H" := 1 ]})
         ∧ cl !! S (length (parsed_sequence self))
           = Some (fold_left comp_add cs {[ "H" := 1; "O" := 1 ]}))
  ∧ (∀ ml, sequential_theoretical_mass self = Ok ml →
       length ml = (length (parsed_sequence self) + 2)%nat
       ∧ ∃ ns cs,
           resolve_to tag_mass (default [] (n_term (properties self))) ns
           ∧ resolve_to tag_mass (default [] (c_term (properties self))) cs
           ∧ ml !! 0%nat
             = Some (fold_left madd ns (comp_mass {[ "H" := 1 ]}))
           ∧ ml !! S (length (parsed_sequence self))
             = Some (fold_left madd cs
                       (comp_mass {[ "H" := 1; "O" := 1 ]})))
  ∧ (∀ cl ml, sequential_composition self = Ok cl →
              sequential_theoretical_mass self = Ok ml →
              length cl = length ml).
Proof.
  split; [|split].
  - intros cl Hcl. by eapply sequential_ends.
  - intros ml Hml. by eapply sequential_ends.
  - intros cl ml Hcl Hml.
    apply sequential_length in Hcl, Hml. by rewrite Hcl, Hml.
Qed.

Lemma per_position_results_ends_witness :
  length ex_many_compositions = (length (parsed_sequence ex_many) + 2)%nat
  ∧ ∃ ns cs,
      resolve_to tag_composition (default [] (n_term (properties ex_many))) ns
      ∧ resolve_to tag_composition (default [] (c_term (properties ex_many))) cs
      ∧ ex_many_compositions !! 0%nat
        = Some (fold_left comp_add ns {[ "H" := 1 ]})
      ∧ ex_many_compositions !! S (length (parsed_sequence ex_many))
        = Some (fold_left comp_add cs {[ "H" := 1; "O" := 1 ]}).
Proof.
  refine (proj1 (per_position_results_ends ex_many) ex_many_compositions _).
  reflexivity.
Defined.

(** ** The order of residues, and materialised rules *)

Section CompositionFacts.
Context {M : Type} `{!MassArith M} `{!Environment M}.

Lemma position_values_perm (fixed_rules : gmap string Composition)
    (l l' : list (Position M)) (vs : list Composition) :
  l ≡ₚ l' →
  position_values "composition" comp_add tag_composition std_aa_comp
    fixed_rules l = Ok vs →
  ∃ vs',
    position_values "composition" comp_add tag_composition std_aa_comp
      fixed_rules l' = Ok vs'
    ∧ vs ≡ₚ vs'.
Proof.
  intros Hp. revert vs.
  induction Hp as [|pos l l' _ IH|p1 p2 l|l l' l'' _ IH1 _ IH2]; intros vs;
    simpl.
  - intros [= <-]. by exists [].
  - intros Hvs. apply bind_Ok in Hvs as (v & Hv & Hrest).
    apply bind_Ok in Hrest as (vs0 & Hvs0 & [= <-]).
    destruct (IH _ Hvs0) as (vs0' & Hvs0' & Hperm).
    exists (v :: vs0'). rewrite Hv, Hvs0'. split; [done|]. by constructor.
  - intros Hvs. apply bind_Ok in Hvs as (v2 & Hv2 & Hrest).
    apply bind_Ok in Hrest as (vs1 & Hrest & [= <-]).
    apply bind_Ok in Hrest as (v1 & Hv1 & Hrest).
    apply bind_Ok in Hrest as (vs0 & Hvs0 & [= <-]).
    exists (v1 :: v2 :: vs0). rewrite Hv1, Hv2, Hvs0. split; [done|].
    apply perm_swap.
  - intros Hvs. destruct (IH1 _ Hvs) as (vs' & Hvs' & Hperm1).
    destruct (IH2 _ Hvs') as (vs'' & Hvs'' & Hperm2).
    exists vs''. split; [done|]. by etrans.
Qed.

(** Adding a resolved composition after the tags or before them gives
    the same result, and the same exception when a tag fails. *)
Lemma add_tags_snoc (acc v : Composition) (tag : ModificationTag M)
    (tags : list (ModificationTag M)) :
  tag_composition tag = Ok v →
  add_tags "composition" comp_add tag_composition acc (tags ++ [tag])
  = add_tags "composition" comp_add tag_composition (comp_add acc v) tags.
Proof.
  intros Hv. revert acc. induction tags as [|t tags IH]; intros acc; simpl.
  - by rewrite Hv.
  - destruct (except_lookup (tag_composition t)
                (unresolved_modification "composition" t)) as [w|e];
      simpl; [|done].
    rewrite IH. by rewrite comp_add_right_comm.
Qed.

Lemma filter_eq_nil (aa : string) (tgts : list string) :
  filter (λ t, t = aa) tgts = [] ↔ aa ∉ tgts.
Proof.
  induction tgts as [|t tgts IH]; simpl.
  - split; [|done]. intros _ Hin. inversion Hin.
  - rewrite filter_cons. destruct (decide (t = aa)) as [->|Hne].
    + split; [done|]. intros Hout. exfalso. apply Hout. by left.
    + rewrite IH. split.
      * intros Hout [?|?]%elem_of_cons; [by subst|done].
      * intros Hout Hin. apply Hout. by right.
Qed.

Lemma tags_for_nil (aa : string) (rules : list (ModificationRule M)) :
  tags_for aa rules = [] ↔ rules_for aa rules = [].
Proof.
  unfold tags_for, rules_for. induction rules as [|rule rules IH].
  - done.
  - change ((rule :: rules) ≫= _)
      with (((λ _, modification_tag rule)
               <$> filter (λ t, t = aa) (targets rule))
            ++ tags_for aa rules).
    rewrite filter_cons. split.
    + intros [Hhere Hrest]%app_eq_nil.
      apply fmap_nil_inv, filter_eq_nil in Hhere.
      rewrite decide_False by done. by apply IH.
    + destruct (decide (aa ∈ targets rule)) as [Hin|Hout]; [done|].
      intros Hrest. apply IH in Hrest. unfold tags_for in Hrest |- *.
      rewrite Hrest. apply filter_eq_nil in Hout. by rewrite Hout.
Qed.

Lemma tags_for_single (aa : string) (rules : list (ModificationRule M))
    (tag : ModificationTag M) :
  tags_for aa rules = [tag] →
  ∃ rule, last (rules_for aa rules) = Some rule
          ∧ modification_tag rule = tag.
Proof.
  induction rules as [|rule rules IH]; [done|].
  change (tags_for aa (rule :: rules))
    with (((λ _, modification_tag rule)
             <$> filter (λ t, t = aa) (targets rule))
          ++ tags_for aa rules).
  unfold rules_for. rewrite filter_cons.
  destruct (filter (λ t, t = aa) (targets rule)) as [|t ts] eqn:Hf; simpl.
  - intros Hrest. apply filter_eq_nil in Hf.
    rewrite decide_False by done. by apply IH.
  - intros [= <- Hnil]. apply app_eq_nil in Hnil as [_ Hrest].
    apply tags_for_nil in Hrest. unfold rules_for in Hrest.
    assert (aa ∈ targets rule) as Hin.
    { destruct (decide (aa ∈ targets rule)) as [|Hout]; [done|].
      apply filter_eq_nil in Hout. by rewrite Hout in Hf. }
    rewrite decide_True by done. rewrite Hrest. by exists rule.
Qed.

Lemma position_value_materialized (rules : list (ModificationRule M))
    (fixed_rules : gmap string Composition) (pos : Position M) :
  build_fixed_rules tag_composition (Some rules) = Ok fixed_rules →
  (length (tags_for pos.1 rules) ≤ 1)%nat →
  position_value "composition" comp_add tag_composition std_aa_comp ∅
    (materialize rules pos)
  = position_value "composition" comp_add tag_composition std_aa_comp
      fixed_rules pos.
Proof.
  intros Hfr Hone. destruct pos as [aa tags]. simpl in Hone.
  pose proof (build_fixed_rules_lookup _ _ _ aa Hfr) as Hentry.
  unfold materialize. simpl.
  destruct (tags_for aa rules) as [|tag [|tag' more]] eqn:Htags;
    [| |simpl in Hone; lia].
  - apply tags_for_nil in Htags. rewrite Htags in Hentry. simpl in Hentry.
    unfold position_value. by rewrite Hentry, lookup_empty.
  - apply tags_for_single in Htags as (rule & Hlast & <-).
    rewrite Hlast in Hentry. simpl in Hentry.
    destruct (tag_composition (modification_tag rule)) as [v|e] eqn:Hv.
    2:{ exfalso. simpl in Hfr.
        by eapply (record_rules_unresolved tag_composition). }
    unfold position_value. rewrite Hentry, lookup_empty.
    destruct (std_aa_comp !! aa) as [base|]; simpl; [|done].
    unfold add_optional_tags.
    replace (truthy (Some (default [] tags ++ [modification_tag rule])))
      with true by (by destruct (default [] tags)).
    simpl. rewrite (add_tags_snoc _ v) by done.
    by destruct tags as [[|t ts]|].
Qed.

End CompositionFacts.

(** X5: [composition] does not depend on the order of the residues: two
    peptidoforms with the same properties whose sequences are
    permutations of one another have the same composition, whenever
    [composition] returns for one of them. *)
Theorem composition_ignores_residue_order {M : Type} `{!MassArith M}
    `{!Environment M} (p q : Peptidoform M) (c : Composition) :
  parsed_sequence p ≡ₚ parsed_sequence q →
  properties p = properties q →
  composition p = Ok c →
  composition q = Ok c.
Proof.
  intros Hperm Hprops Hc.
  apply total_Ok in Hc as (pp & ls & us & Hpp & Hls & Hus & ->).
  apply sequential_Ok in Hpp as (fr & n & rs & ce & Hfr & Hn & Hrs & Hce & ->).
  destruct (position_values_perm _ _ _ _ Hperm Hrs) as (rs' & Hrs' & Hvs).
  apply total_Ok. exists (n :: rs' ++ [ce]), ls, us.
  rewrite <- Hprops. repeat split; [|done..|].
  - apply sequential_Ok. exists fr, n, rs', ce. by rewrite <- Hprops.
  - f_equal. apply fold_comp_add_perm. by rewrite Hvs.
Qed.

Lemma composition_ignores_residue_order_witness :
  composition ex_plain_swapped
  = Ok {[ "C" := 6; "H" := 12; "N" := 2; "O" := 3; "S" := 1 ]}.
Proof.
  refine (composition_ignores_residue_order ex_plain ex_plain_swapped _ _ _ _).
  - apply perm_swap.
  - reflexivity.
  - reflexivity.
Defined.

(** X6: when the fixed-rule lookup can be built and no residue is named
    by more than one rule target, the per-residue compositions that the
    resolver computes with the lookup are the ones it computes, without
    any fixed rule, on the sequence that [apply_fixed_modifications]
    writes: a result is equal, and so is an exception. *)
Theorem materialized_positions_same_compositions {M : Type} `{!MassArith M}
    `{!Environment M} (rules : list (ModificationRule M))
    (fixed_rules : gmap string Composition) (seq : list (Position M)) :
  build_fixed_rules tag_composition (Some rules) = Ok fixed_rules →
  (∀ aa, (length (tags_for aa rules) ≤ 1)%nat) →
  position_values "composition" comp_add tag_composition std_aa_comp ∅
    (materialize rules <$> seq)
  = position_values "composition" comp_add tag_composition std_aa_comp
      fixed_rules seq.
Proof.
  intros Hfr Hone. induction seq as [|pos seq IH]; [done|].
  rewrite fmap_cons. simpl.
  rewrite (position_value_materialized rules fixed_rules pos Hfr (Hone _)).
  by rewrite IH.
Qed.

Lemma materialized_positions_same_compositions_witness :
  position_values "composition" comp_add tag_composition std_aa_comp ∅
    (materialize [ex_rule "Carbamidomethyl" ["C"]]
       <$> parsed_sequence ex_fixed_and_local)
  = position_values "composition" comp_add tag_composition std_aa_comp
      {[ "C" := {[ "C" := 2; "H" := 3; "N" := 1; "O" := 1 ]} ]}
      (parsed_sequence ex_fixed_and_local).
Proof.
  refine (materialized_positions_same_compositions
            [ex_rule "Carbamidomethyl" ["C"]] _
            (parsed_sequence ex_fixed_and_local) _ _).
  - reflexivity.
  - intros aa. unfold tags_for. simpl. rewrite filter_cons.
    destruct (decide ("C" = aa)); simpl; lia.
Defined.

(** ** What the rewriting methods keep *)

Section KeepFacts.
Context {M : Type} `{!MassArith M} `{!Environment M}.

Lemma sequence_fst (self : Peptidoform M) :
  sequence self = foldr String.append "" (fst <$> parsed_sequence self).
Proof.
  unfold sequence. induction (parsed_sequence self) as [|pos seq IH];
    simpl; [done|]. by rewrite IH.
Qed.

Lemma skeleton_sequence (p q : Peptidoform M) :
  skeleton p = skeleton q → sequence p = sequence q.
Proof. intros [= Hfst _ _]. by rewrite !sequence_fst, Hfst. Qed.

Lemma skeleton_length (p q : Peptidoform M) :
  skeleton p = skeleton q →
  length (parsed_sequence p) = length (parsed_sequence q).
Proof.
  intros [= Hfst _ _]. apply (f_equal length) in Hfst.
  by rewrite !length_fmap in Hfst.
Qed.

Lemma apply_fixed_modifications_eq (self : Peptidoform M) :
  apply_fixed_modifications self
  = if truthy (fixed_modifications (properties self)) then
      set_fixed_modifications None
        (set_parsed_sequence
           (materialize (default [] (fixed_modifications (properties self)))
              <$> parsed_sequence self) self)
    else self.
Proof.
  unfold apply_fixed_modifications.
  destruct (truthy (fixed_modifications (properties self))); [|done].
  rewrite apply_positions_map. do 2 f_equal.
  apply list_fmap_ext. intros _ pos _. apply apply_at_materialize.
Qed.

Lemma materialize_fst (rules : list (ModificationRule M)) (pos : Position M) :
  (materialize rules pos).1 = pos.1.
Proof. unfold materialize. by destruct (tags_for pos.1 rules). Qed.

Lemma materialize_tags (rules : list (ModificationRule M))
    (pos : Position M) :
  default [] (materialize rules pos).2
  = default [] pos.2 ++ tags_for pos.1 rules.
Proof.
  unfold materialize. destruct (tags_for pos.1 rules); simpl; [|done].
  by rewrite app_nil_r.
Qed.

Lemma materialize_nil (pos : Position M) : materialize [] pos = pos.
Proof. done. Qed.

Lemma apply_fixed_modifications_skeleton (self : Peptidoform M) :
  skeleton (apply_fixed_modifications self) = skeleton self.
Proof.
  rewrite apply_fixed_modifications_eq.
  destruct (truthy (fixed_modifications (properties self))); [|done].
  unfold skeleton. simpl. do 2 f_equal.
  rewrite <- list_fmap_compose. apply list_fmap_ext.
  intros _ pos _. apply materialize_fst.
Qed.

(** Keeping a view of the state goes through sequencing. *)
Lemma act_bind_keeps {A B X} (view : Peptidoform M → X) (c : action A)
    (k : A → action B) (self : Peptidoform M) :
  (∀ s, view (c s).2 = view s) →
  (∀ a s, view (k a s).2 = view s) →
  view (act_bind c k self).2 = view self.
Proof.
  intros Hc Hk. unfold act_bind. specialize (Hc self).
  destruct (c self) as [[a|e] s]; simpl in *; [|done].
  by rewrite Hk.
Qed.

Lemma rename_positions_skeleton (mapping : gmap string string) (i n : nat)
    (self : Peptidoform M) :
  skeleton (rename_positions mapping i n self).2 = skeleton self.
Proof.
  revert i self. induction n as [|n IH]; intros i self; simpl; [done|].
  unfold act_bind at 1. simpl. unfold act_bind at 1.
  destruct (parsed_sequence self !! i) as [[aa mods]|] eqn:Hi; simpl.
  - destruct (truthy mods); simpl.
    + unfold act_bind at 1, act_lift.
      destruct (rename_tags mapping (default [] mods)) as [new_mods|e];
        simpl; [|done].
      rewrite IH. unfold skeleton. simpl. do 2 f_equal.
      rewrite list_fmap_insert. simpl. apply list_insert_id.
      by rewrite list_lookup_fmap, Hi.
    + by rewrite IH.
  - by rewrite IH.
Qed.

Lemma rename_n_term_skeleton (mapping : gmap string string)
    (self : Peptidoform M) :
  skeleton (rename_n_term mapping self).2 = skeleton self.
Proof.
  unfold rename_n_term, act_bind, act_get, act_lift.
  destruct (truthy (n_term (properties self))); [|done].
  by destruct (rename_tags mapping _).
Qed.

Lemma rename_c_term_skeleton (mapping : gmap string string)
    (self : Peptidoform M) :
  skeleton (rename_c_term mapping self).2 = skeleton self.
Proof.
  unfold rename_c_term, act_bind, act_get, act_lift.
  destruct (truthy (c_term (properties self))); [|done].
  by destruct (rename_tags mapping _).
Qed.

Lemma rename_unlocalized_skeleton (mapping : gmap string string)
    (self : Peptidoform M) :
  skeleton (rename_unlocalized mapping self).2 = skeleton self.
Proof.
  unfold rename_unlocalized, act_bind, act_get, act_lift.
  destruct (truthy (Some (unlocalized_modifications (properties self))));
    [|done].
  by destruct (rename_tags mapping _).
Qed.

Lemma rename_labile_skeleton (mapping : gmap string string)
    (self : Peptidoform M) :
  skeleton (rename_labile mapping self).2 = skeleton self.
Proof.
  unfold rename_labile, act_bind, act_get, act_lift.
  destruct (truthy (Some (labile_modifications (properties self))));
    [|done].
  by destruct (rename_tags mapping _).
Qed.

Lemma rename_fixed_skeleton (mapping : gmap string string)
    (self : Peptidoform M) :
  skeleton (rename_fixed mapping self).2 = skeleton self.
Proof.
  unfold rename_fixed, act_bind, act_get, act_lift.
  destruct (truthy (fixed_modifications (properties self))); [|done].
  by destruct (rename_rules mapping _).
Qed.

Lemma rename_modifications_skeleton (mapping : gmap string string)
    (self : Peptidoform M) :
  skeleton (rename_modifications mapping self).2 = skeleton self.
Proof.
  rewrite rename_modifications_steps.
  apply (act_bind_keeps skeleton); [apply rename_positions_skeleton|].
  intros _ s1.
  apply (act_bind_keeps skeleton); [apply rename_n_term_skeleton|].
  intros _ s2.
  apply (act_bind_keeps skeleton); [apply rename_c_term_skeleton|].
  intros _ s3.
  apply (act_bind_keeps skeleton); [apply rename_unlocalized_skeleton|].
  intros _ s4.
  apply (act_bind_keeps skeleton); [apply rename_labile_skeleton|].
  intros _ s5. apply rename_fixed_skeleton.
Qed.

Lemma rename_modifications_fixed (mapping : gmap string string)
    (self : Peptidoform M) :
  fixed_modifications (properties (rename_modifications mapping self).2)
  = fixed_modifications (properties self).
Proof.
  rewrite rename_modifications_steps.
  apply (act_bind_keeps (λ s, fixed_modifications (properties s)));
    [apply rename_positions_fixed|]. intros _ s1.
  apply (act_bind_keeps (λ s, fixed_modifications (properties s)));
    [apply rename_n_term_fixed|]. intros _ s2.
  apply (act_bind_keeps (λ s, fixed_modifications (properties s)));
    [apply rename_c_term_fixed|]. intros _ s3.
  apply (act_bind_keeps (λ s, fixed_modifications (properties s)));
    [apply rename_unlocalized_fixed|]. intros _ s4.
  apply (act_bind_keeps (λ s, fixed_modifications (properties s)));
    [apply rename_labile_fixed|]. intros _ s5.
  destruct (truthy (fixed_modifications (properties s5))) eqn:Ht.
  - by rewrite rename_fixed_raises.
  - by rewrite rename_fixed_skips.
Qed.

Lemma add_fixed_modifications_skeleton
    (modification_rules : list (string * list string))
    (self : Peptidoform M) :
  skeleton (add_fixed_modifications modification_rules self).2
  = skeleton self.
Proof.
  unfold add_fixed_modifications, act_bind, act_lift, act_get.
  destruct (make_rules modification_rules) as [rules|e]; simpl; [|done].
  by destruct (truthy (fixed_modifications (properties self))).
Qed.

End KeepFacts.

(** X7: [apply_fixed_modifications] keeps the residues and their number,
    so the stripped sequence is the same; it keeps the terminal,
    unlocalized and labile tags, the charge state and the isotopes; and
    at every position the tags that were there are still there, in
    order, before the ones it adds. *)
Theorem apply_fixed_modifications_keeps {M : Type} `{!MassArith M}
    `{!Environment M} (self : Peptidoform M) :
  sequence (apply_fixed_modifications self) = sequence self
  ∧ length (parsed_sequence (apply_fixed_modifications self))
    = length (parsed_sequence self)
  ∧ n_term (properties (apply_fixed_modifications self))
    = n_term (properties self)
  ∧ c_term (properties (apply_fixed_modifications self))
    = c_term (properties self)
  ∧ unlocalized_modifications (properties (apply_fixed_modifications self))
    = unlocalized_modifications (properties self)
  ∧ labile_modifications (properties (apply_fixed_modifications self))
    = labile_modifications (properties self)
  ∧ charge_state (properties (apply_fixed_modifications self))
    = charge_state (properties self)
  ∧ isotopes (properties (apply_fixed_modifications self))
    = isotopes (properties self)
  ∧ ∀ i aa tags,
      parsed_sequence self !! i = Some (aa, tags) →
      ∃ tags',
        parsed_sequence (apply_fixed_modifications self) !! i
          = Some (aa, tags')
        ∧ default [] tags `prefix_of` default [] tags'.
Proof.
  pose proof (apply_fixed_modifications_skeleton self) as Hsk.
  split; [by apply skeleton_sequence|].
  split; [by apply skeleton_length|].
  rewrite apply_fixed_modifications_eq.
  destruct (truthy (fixed_modifications (properties self))).
  - repeat (split; [reflexivity|]). intros i aa tags Hi. simpl.
    rewrite list_lookup_fmap, Hi. simpl.
    pose proof (materialize_fst
                  (default [] (fixed_modifications (properties self)))
                  (aa, tags)) as Hfst.
    pose proof (materialize_tags
                  (default [] (fixed_modifications (properties self)))
                  (aa, tags)) as Htags.
    destruct (materialize _ (aa, tags)) as [aa' tags']. simpl in *.
    subst aa'. exists tags'. split; [done|]. rewrite Htags.
    by apply prefix_app_r.
  - repeat (split; [reflexivity|]). intros i aa tags Hi. by exists tags.
Qed.

Lemma apply_fixed_modifications_keeps_witness :
  ∃ tags',
    parsed_sequence (apply_fixed_modifications ex_fixed_and_local) !! 1%nat
      = Some ("C", tags')
    ∧ default [] (Some [ex_tag "Oxidation"]) `prefix_of` default [] tags'.
Proof.
  pose proof (apply_fixed_modifications_keeps ex_fixed_and_local)
    as (_ & _ & _ & _ & _ & _ & _ & _ & Hpos).
  refine (Hpos 1%nat "C" (Some [ex_tag "Oxidation"]) _). reflexivity.
Defined.

(** X8: whatever the mapping and whether or not it raises,
    [rename_modifications] leaves the residues, their number, the
    charge state, the isotopes and the fixed rules as they were; the
    stripped sequence is the same afterwards. *)
Theorem rename_modifications_keeps {M : Type} `{!MassArith M}
    `{!Environment M} (mapping : gmap string string)
    (self : Peptidoform M) :
  sequence (rename_modifications mapping self).2 = sequence self
  ∧ fst <$> parsed_sequence (rename_modifications mapping self).2
    = fst <$> parsed_sequence self
  ∧ charge_state (properties (rename_modifications mapping self).2)
    = charge_state (properties self)
  ∧ isotopes (properties (rename_modifications mapping self).2)
    = isotopes (properties self)
  ∧ fixed_modifications (properties (rename_modifications mapping self).2)
    = fixed_modifications (properties self).
Proof.
  pose proof (rename_modifications_skeleton mapping self) as Hsk.
  split; [by apply skeleton_sequence|].
  injection Hsk as Hfst Hcharge Hiso.
  repeat (split; [done|]). apply rename_modifications_fixed.
Qed.

(** X9: every object that can be reached from the constructor's result
    by [rename_modifications], [add_fixed_modifications] and
    [apply_fixed_modifications] has no isotopes, and has the residues
    and the charge state that the parser returned for the text. *)
Theorem reachable_keeps_parsed_residues {M : Type} `{!MassArith M}
    `{!Environment M} (text : string) (self : Peptidoform M) :
  reachable text self →
  ∃ seq props,
    parse text = Ok (seq, props)
    ∧ isotopes (properties self) = []
    ∧ fst <$> parsed_sequence self = fst <$> seq
    ∧ charge_state (properties self) = charge_state props.
Proof.
  intros Hreach.
  assert (∃ seq props, parse text = Ok (seq, props)
                       ∧ skeleton self = (fst <$> seq, charge_state props, []))
    as (seq & props & Hparse & Hsk).
  { induction Hreach as [self Hinit|self mapping _ IH|self rs _ IH|self _ IH].
    - unfold __init__ in Hinit.
      destruct (parse text) as [[seq props]|e] eqn:Hparse; simpl in Hinit;
        [|done].
      destruct (isotopes props) eqn:Hiso; [|done].
      injection Hinit as <-. exists seq, props. split; [done|].
      unfold skeleton. simpl. by rewrite Hiso.
    - destruct IH as (seq & props & Hparse & Hsk). exists seq, props.
      by rewrite rename_modifications_skeleton.
    - destruct IH as (seq & props & Hparse & Hsk). exists seq, props.
      by rewrite add_fixed_modifications_skeleton.
    - destruct IH as (seq & props & Hparse & Hsk). exists seq, props.
      by rewrite apply_fixed_modifications_skeleton. }
  exists seq, props. injection Hsk as Hfst Hcharge Hiso. done.
Qed.

Lemma reachable_keeps_parsed_residues_witness :
  ∃ seq props,
    parse "<[Carbamidomethyl]@C>AC" = Ok (seq, props)
    ∧ isotopes
        (properties
           (rename_modifications ∅ (apply_fixed_modifications ex_fixed)).2)
      = []
    ∧ fst <$> parsed_sequence
                (rename_modifications ∅ (apply_fixed_modifications ex_fixed)).2
      = fst <$> seq
    ∧ charge_state
        (properties
           (rename_modifications ∅ (apply_fixed_modifications ex_fixed)).2)
      = charge_state props.
Proof.
  refine (reachable_keeps_parsed_residues "<[Carbamidomethyl]@C>AC" _ _).
  apply reach_rename, reach_apply, reach_init. reflexivity.
Defined.

(** ** Renaming, label by label *)

Section RenameLocalFacts.
Context {M : Type} `{!MassArith M} `{!Environment M}.
Variable mapping : gmap string string.
Variable fresh : string → ModificationTag M.

Lemma rename_tags_local (mods : list (ModificationTag M)) :
  Forall (constructible mapping fresh) mods →
  rename_tags mapping mods = Ok (renamed_tags fresh mapping mods).
Proof.
  intros Hmods. unfold rename_tags.
  assert (_rename_modification_list tag_value_of mapping mods
          = Ok ((λ tag, match mapping !! tag_value tag with
                        | Some new_label => inl (fresh new_label)
                        | None => inr tag
                        end) <$> mods)) as ->.
  { induction Hmods as [|tag mods Htag _ IH]; simpl; [done|].
    rewrite IH.
    destruct (mapping !! tag_value tag) as [new_label|] eqn:Hkey; simpl;
      [|done].
    by rewrite (Htag new_label Hkey). }
  simpl. f_equal. unfold renamed_tags.
  rewrite <- list_fmap_compose. apply list_fmap_ext.
  intros _ tag _. unfold renamed_tag. simpl.
  by destruct (mapping !! tag_value tag).
Qed.

Lemma rename_positions_local (done_ todo : list (Position M))
    (self : Peptidoform M) :
  parsed_sequence self = done_ ++ todo →
  Forall (constructible mapping fresh) (position_tags todo) →
  rename_positions mapping (length done_) (length todo) self
  = (Ok tt,
     set_parsed_sequence
       (done_ ++ (renamed_position fresh mapping <$> todo)) self).
Proof.
  revert done_ self.
  induction todo as [|pos todo IH]; intros done_ self Hseq Htags; simpl.
  - unfold act_ret. f_equal. destruct self. simpl in *. by subst.
  - change (position_tags (pos :: todo))
      with (default [] pos.2 ++ position_tags todo) in Htags.
    apply Forall_app in Htags as [Hpos Htodo].
    unfold act_bind at 1. simpl. unfold act_bind at 1.
    rewrite Hseq, list_lookup_middle by done.
    destruct pos as [aa mods]. simpl in Hpos.
    assert (∀ s : Peptidoform M,
              parsed_sequence s
              = (done_ ++ [renamed_position fresh mapping (aa, mods)]) ++ todo →
              properties s = properties self →
              rename_positions mapping (S (length done_)) (length todo) s
              = (Ok tt,
                 set_parsed_sequence
                   (done_ ++ renamed_position fresh mapping (aa, mods)
                      :: (renamed_position fresh mapping <$> todo)) self))
      as Hnext.
    { intros s Hs Hprops.
      replace (S (length done_))
        with (length (done_ ++ [renamed_position fresh mapping (aa, mods)]))
        by (rewrite length_app; simpl; lia).
      rewrite (IH _ s Hs Htodo). f_equal. unfold set_parsed_sequence.
      rewrite Hprops. by rewrite <- app_assoc. }
    destruct (truthy mods) eqn:Ht.
    + unfold act_bind at 1, act_lift. rewrite rename_tags_local by done.
      simpl. apply Hnext; [|done]. simpl. rewrite Hseq.
      rewrite insert_app_r_alt by done. rewrite Nat.sub_diag. simpl.
      rewrite <- app_assoc. simpl. unfold renamed_position. simpl.
      by destruct mods as [[|tag tags]|].
    + simpl. apply Hnext; [|done]. rewrite Hseq, <- app_assoc. simpl.
      by destruct mods as [[|tag tags]|].
Qed.

Lemma rename_n_term_local (self : Peptidoform M) :
  Forall (constructible mapping fresh)
    (default [] (n_term (properties self))) →
  rename_n_term mapping self
  = (Ok tt,
     set_n_term (renamed_tags fresh mapping <$> n_term (properties self)) self).
Proof.
  unfold rename_n_term, act_bind, act_get, act_lift, act_modify, act_ret.
  destruct self as [seq [nt ct us ls fx cs iso]]. simpl.
  destruct nt as [[|tag tags]|]; simpl; [done| |done].
  intros Htags. by rewrite rename_tags_local.
Qed.

Lemma rename_c_term_local (self : Peptidoform M) :
  Forall (constructible mapping fresh)
    (default [] (c_term (properties self))) →
  rename_c_term mapping self
  = (Ok tt,
     set_c_term (renamed_tags fresh mapping <$> c_term (properties self)) self).
Proof.
  unfold rename_c_term, act_bind, act_get, act_lift, act_modify, act_ret.
  destruct self as [seq [nt ct us ls fx cs iso]]. simpl.
  destruct ct as [[|tag tags]|]; simpl; [done| |done].
  intros Htags. by rewrite rename_tags_local.
Qed.

Lemma rename_unlocalized_local (self : Peptidoform M) :
  Forall (constructible mapping fresh)
    (unlocalized_modifications (properties self)) →
  rename_unlocalized mapping self
  = (Ok tt,
     set_unlocalized_modifications
       (renamed_tags fresh mapping
          (unlocalized_modifications (properties self))) self).
Proof.
  unfold rename_unlocalized, act_bind, act_get, act_lift, act_modify, act_ret.
  destruct self as [seq [nt ct us ls fx cs iso]]. simpl.
  destruct us as [|tag tags]; simpl; [done|].
  intros Htags. by rewrite rename_tags_local.
Qed.

Lemma rename_labile_local (self : Peptidoform M) :
  Forall (constructible mapping fresh)
    (labile_modifications (properties self)) →
  rename_labile mapping self
  = (Ok tt,
     set_labile_modifications
       (renamed_tags fresh mapping
          (labile_modifications (properties self))) self).
Proof.
  unfold rename_labile, act_bind, act_get, act_lift, act_modify, act_ret.
  destruct self as [seq [nt ct us ls fx cs iso]]. simpl.
  destruct ls as [|tag tags]; simpl; [done|].
  intros Htags. by rewrite rename_tags_local.
Qed.

(** When the labels that are needed can be made into tags, the five tag
    locations are rewritten, and the outcome depends on the fixed rules
    alone. *)
Lemma rename_modifications_local (self : Peptidoform M) :
  Forall (constructible mapping fresh)
    (local_tags self ++ sequence_wide_tags self) →
  rename_modifications mapping self
  = (if truthy (fixed_modifications (properties self))
     then Err no_value_error else Ok tt,
     renamed fresh mapping self).
Proof.
  unfold local_tags, sequence_wide_tags. rewrite !Forall_app.
  intros [(Hn & Hpos & Hc) (Hl & Hu)].
  rewrite rename_modifications_steps.
  pose proof (rename_positions_local [] (parsed_sequence self) self
                eq_refl Hpos) as Hstep.
  simpl in Hstep. unfold act_bind. rewrite Hstep.
  rewrite rename_n_term_local by (by destruct self as [seq []]).
  rewrite rename_c_term_local by (by destruct self as [seq []]).
  rewrite rename_unlocalized_local by (by destruct self as [seq []]).
  rewrite rename_labile_local by (by destruct self as [seq []]).
  destruct (truthy (fixed_modifications (properties self))) eqn:Ht.
  - rewrite rename_fixed_raises; [|by destruct self as [seq []]].
    by destruct self as [seq []].
  - rewrite rename_fixed_skips; [|by destruct self as [seq []]].
    by destruct self as [seq []].
Qed.

Lemma renamed_tags_no_key (mods : list (ModificationTag M)) :
  Forall (λ tag, mapping !! tag_value tag = None) mods →
  renamed_tags fresh mapping mods = mods.
Proof.
  intros Hmods. unfold renamed_tags.
  induction Hmods as [|tag mods Htag _ IH]; [done|].
  rewrite fmap_cons, IH. unfold renamed_tag. by rewrite Htag.
Qed.

Lemma renamed_no_key (self : Peptidoform M) :
  Forall (λ tag, mapping !! tag_value tag = None)
    (local_tags self ++ sequence_wide_tags self) →
  renamed fresh mapping self = self.
Proof.
  unfold local_tags, sequence_wide_tags. rewrite !Forall_app.
  intros [(Hn & Hpos & Hc) (Hl & Hu)].
  destruct self as [seq [nt ct us ls fx cs iso]]. unfold renamed. simpl in *.
  rewrite (renamed_tags_no_key us Hu), (renamed_tags_no_key ls Hl).
  assert (renamed_tags fresh mapping <$> nt = nt) as ->.
  { destruct nt as [tags|]; simpl in *; [|done].
    by rewrite renamed_tags_no_key. }
  assert (renamed_tags fresh mapping <$> ct = ct) as ->.
  { destruct ct as [tags|]; simpl in *; [|done].
    by rewrite renamed_tags_no_key. }
  assert (renamed_position fresh mapping <$> seq = seq) as ->; [|done].
  induction seq as [|[aa tags] seq IH]; [done|].
  change (position_tags ((aa, tags) :: seq))
    with (default [] tags ++ position_tags seq) in Hpos.
  apply Forall_app in Hpos as [Htags Hseq].
  rewrite fmap_cons, (IH Hseq). unfold renamed_position. simpl.
  destruct tags as [tags|]; simpl in *; [|done].
  by rewrite renamed_tags_no_key.
Qed.

End RenameLocalFacts.

(** X10: on a peptidoform without fixed rules, when every label that a
    tag is to be renamed to can be made into a tag,
    [rename_modifications] returns and has rewritten the tags on the
    residues, at the two termini, and in the unlocalized and the labile
    list: a tag whose label is a key has been replaced by the tag made
    from the mapped label, every other tag is the one that was there,
    and order and number of the tags are kept. *)
Theorem rename_modifications_selective {M : Type} `{!MassArith M}
    `{!Environment M} (mapping : gmap string string)
    (fresh : string → ModificationTag M) (self : Peptidoform M) :
  truthy (fixed_modifications (properties self)) = false →
  Forall (constructible mapping fresh)
    (local_tags self ++ sequence_wide_tags self) →
  rename_modifications mapping self = (Ok tt, renamed fresh mapping self).
Proof.
  intros Ht Htags.
  rewrite (rename_modifications_local mapping fresh self Htags).
  by rewrite Ht.
Qed.

Lemma rename_modifications_selective_witness :
  rename_modifications {[ "ac" := "Acetyl"; "cmm" := "Carbamidomethyl" ]}
    ex_doc_rename
  = (Ok tt,
     renamed ex_tag {[ "ac" := "Acetyl"; "cmm" := "Carbamidomethyl" ]}
       ex_doc_rename).
Proof.
  refine (rename_modifications_selective _ ex_tag ex_doc_rename _ _).
  - reflexivity.
  - apply Forall_forall. intros tag _ new_label _. reflexivity.
Defined.

(** X11: on a peptidoform with a fixed rule, when every label that a
    tag is to be renamed to can be made into a tag,
    [rename_modifications] raises the AttributeError only after it has
    rewritten the tags of the other five locations: the object is left
    with those tags renamed and with its fixed rules untouched. *)
Theorem rename_modifications_raises_after_rewriting {M : Type}
    `{!MassArith M} `{!Environment M} (mapping : gmap string string)
    (fresh : string → ModificationTag M) (self : Peptidoform M) :
  truthy (fixed_modifications (properties self)) = true →
  Forall (constructible mapping fresh)
    (local_tags self ++ sequence_wide_tags self) →
  rename_modifications mapping self
  = (Err no_value_error, renamed fresh mapping self)
  ∧ fixed_modifications (properties (renamed fresh mapping self))
    = fixed_modifications (properties self).
Proof.
  intros Ht Htags.
  rewrite (rename_modifications_local mapping fresh self Htags).
  by rewrite Ht.
Qed.

Lemma rename_modifications_raises_after_rewriting_witness :
  rename_modifications {[ "cmm" := "Carbamidomethyl" ]} ex_rename
  = (Err no_value_error,
     renamed ex_tag {[ "cmm" := "Carbamidomethyl" ]} ex_rename)
  ∧ fixed_modifications
      (properties (renamed ex_tag {[ "cmm" := "Carbamidomethyl" ]} ex_rename))
    = fixed_modifications (properties ex_rename).
Proof.
  refine (rename_modifications_raises_after_rewriting _ ex_tag ex_rename _ _).
  - reflexivity.
  - apply Forall_forall. intros tag _ new_label _. reflexivity.
Defined.

(** X12: on a peptidoform without fixed rules, a mapping none of whose
    keys is the label of a tag leaves the object as it is and returns,
    whether or not its values can be made into tags; so does the empty
    mapping. *)
Theorem rename_without_matching_key {M : Type} `{!MassArith M}
    `{!Environment M} (mapping : gmap string string)
    (self : Peptidoform M) :
  truthy (fixed_modifications (properties self)) = false →
  (Forall (λ tag, mapping !! tag_value tag = None)
     (local_tags self ++ sequence_wide_tags self) →
   rename_modifications mapping self = (Ok tt, self))
  ∧ rename_modifications ∅ self = (Ok tt, self).
Proof.
  intros Ht.
  assert (∀ m : gmap string string,
            Forall (λ tag, m !! tag_value tag = None)
              (local_tags self ++ sequence_wide_tags self) →
            rename_modifications m self = (Ok tt, self)) as Hno.
  { intros m Hkeys.
    set (fresh := λ label : string,
           {| tag_value := label;
              tag_composition := Err no_value_error;
              tag_mass := Err no_value_error |} : ModificationTag M).
    rewrite (rename_modifications_local m fresh self).
    - rewrite Ht. by rewrite renamed_no_key.
    - eapply Forall_impl; [exact Hkeys|].
      intros tag Hkey new_label Hsome. by rewrite Hkey in Hsome. }
  split; [apply Hno|]. apply Hno, Forall_forall. intros tag _.
  apply lookup_empty.
Qed.

Lemma rename_without_matching_key_witness :
  rename_modifications {[ "ox" := "Oxidation" ]} ex_doc_rename
  = (Ok tt, ex_doc_rename)
  ∧ rename_modifications ∅ ex_doc_rename = (Ok tt, ex_doc_rename).
Proof.
  pose proof (rename_without_matching_key {[ "ox" := "Oxidation" ]}
                ex_doc_rename eq_refl) as [Hkeys Hempty].
  split; [|exact Hempty].
  apply Hkeys. repeat constructor.
Defined.

(** ** Adding fixed modifications *)

Section AddFacts.
Context {M : Type} `{!MassArith M} `{!Environment M}.

(** A rule made from a label and its targets. *)
Lemma make_rules_Ok (modification_rules : list (string * list string))
    (rules : list (ModificationRule M)) :
  make_rules modification_rules = Ok rules
  ↔ Forall2 (λ rule given,
       process_tag_tokens given.1 = Ok (modification_tag rule)
       ∧ targets rule = given.2) rules modification_rules.
Proof.
  revert rules.
  induction modification_rules as [|[label tgts] rest IH]; intros rules; simpl.
  - split.
    + intros [= <-]. constructor.
    + intros Hf. inversion Hf. by subst.
  - rewrite bind_Ok. split.
    + intros (tag & Htag & Hrest).
      apply bind_Ok in Hrest as (rules' & Hrules' & [= <-]).
      constructor; [done|]. by apply IH.
    + intros Hf. inversion Hf as [|rule ? rules' ? [Htag Htgts] Hrest]; subst.
      exists (modification_tag rule). split; [done|].
      apply bind_Ok. exists rules'. split; [by apply IH|].
      simpl in Htgts. rewrite <- Htgts. by destruct rule.
Qed.


Lemma make_rules_app (rs1 rs2 : list (string * list string)) :
  make_rules (rs1 ++ rs2)
  = let* r1 := make_rules rs1 in
    let* r2 := make_rules rs2 in
    Ok (r1 ++ r2).
Proof.
  induction rs1 as [|[label tgts] rs1 IH]; simpl.
  - by destruct (make_rules rs2).
  - destruct (process_tag_tokens label); simpl; [|done].
    rewrite IH. destruct (make_rules rs1); simpl; [|done].
    by destruct (make_rules rs2).
Qed.

Lemma add_fixed_modifications_eq
    (modification_rules : list (string * list string))
    (self : Peptidoform M) :
  add_fixed_modifications modification_rules self
  = match make_rules modification_rules with
    | Ok rules =>
        (Ok tt,
         set_fixed_modifications
           (Some (default [] (fixed_modifications (properties self)) ++ rules))
           self)
    | Err e => (Err e, self)
    end.
Proof.
  unfold add_fixed_modifications, act_bind, act_lift, act_get.
  destruct (make_rules modification_rules) as [rules|e]; simpl; [|done].
  by destruct (fixed_modifications (properties self)) as [[|rule old]|].
Qed.

End AddFacts.



(** X14: two calls of [add_fixed_modifications] that both return leave
    the object that one call with the two lists joined leaves. *)
Theorem add_fixed_modifications_twice {M : Type} `{!MassArith M}
    `{!Environment M} (rs1 rs2 : list (string * list string))
    (self : Peptidoform M) :
  (add_fixed_modifications rs1 self).1 = Ok tt →
  (add_fixed_modifications rs2 (add_fixed_modifications rs1 self).2).1
    = Ok tt →
  add_fixed_modifications rs2 (add_fixed_modifications rs1 self).2
  = add_fixed_modifications (rs1 ++ rs2) self.
Proof.
  rewrite !add_fixed_modifications_eq, make_rules_app.
  destruct (make_rules rs1) as [r1|e1]; simpl; [|done].
  destruct (make_rules rs2) as [r2|e2]; simpl; [|done].
  intros _ _. f_equal. unfold set_fixed_modifications. simpl.
  by rewrite app_assoc.
Qed.

Lemma add_fixed_modifications_twice_witness :
  add_fixed_modifications [("Oxidation", ["M"])]
    (add_fixed_modifications [("Carbamidomethyl", ["C"])] ex_plain).2
  = add_fixed_modifications
      ([("Carbamidomethyl", ["C"])] ++ [("Oxidation", ["M"])]) ex_plain.
Proof.
  refine (add_fixed_modifications_twice [("Carbamidomethyl", ["C"])]
            [("Oxidation", ["M"])] ex_plain _ _); reflexivity.
Defined.

(** X15: after [add_fixed_modifications] has returned, a call of
    [apply_fixed_modifications] writes, at every position, the tags of
    the rules that were there and of the added rules that target the
    residue, after the tags of the position; this is the flow of the
    two docstring examples. *)
Theorem add_then_apply_fixed_modifications {M : Type} `{!MassArith M}
    `{!Environment M} (modification_rules : list (string * list string))
    (self : Peptidoform M) (rules : list (ModificationRule M)) :
  Forall2 (λ rule given,
      process_tag_tokens given.1 = Ok (modification_tag rule)
      ∧ targets rule = given.2) rules modification_rules →
  (add_fixed_modifications modification_rules self).1 = Ok tt
  ∧ parsed_sequence
      (apply_fixed_modifications
         (add_fixed_modifications modification_rules self).2)
    = materialize
        (default [] (fixed_modifications (properties self)) ++ rules)
      <$> parsed_sequence self.
Proof.
  intros Hrules. apply make_rules_Ok in Hrules.
  rewrite add_fixed_modifications_eq, Hrules. simpl. split; [done|].
  rewrite apply_fixed_modifications_eq. simpl.
  destruct (default [] (fixed_modifications (properties self)) ++ rules)
    as [|rule all]; simpl; [|done].
  symmetry. apply list_fmap_id.
Qed.

Lemma add_then_apply_fixed_modifications_witness :
  (add_fixed_modifications [("Carbamidomethyl", ["C"])] ex_doc_plain).1
  = Ok tt
  ∧ parsed_sequence
      (apply_fixed_modifications
         (add_fixed_modifications [("Carbamidomethyl", ["C"])]
            ex_doc_plain).2)
    = materialize
        (default [] (fixed_modifications (properties ex_doc_plain))
           ++ [ex_rule "Carbamidomethyl" ["C"]])
      <$> parsed_sequence ex_doc_plain.
Proof.
  refine (add_then_apply_fixed_modifications [("Carbamidomethyl", ["C"])]
            ex_doc_plain [ex_rule "Carbamidomethyl" ["C"]] _).
  repeat constructor.
Defined.

(** ** Equality, hash and mass over charge: every outcome *)

(** X16: on peptidoforms [==] is reflexive, symmetric and transitive,
    and two peptidoforms that compare equal have the same hash; the
    comparison raises exactly when the other object has no attribute
    [proforma]. *)
Theorem equality_is_equivalence {M : Type} `{!MassArith M}
    `{!Environment M} :
  (∀ p : Peptidoform M, __eq__ p (PeptidoformObject p) = Ok true)
  ∧ (∀ p q : Peptidoform M,
       __eq__ p (PeptidoformObject q) = __eq__ q (PeptidoformObject p))
  ∧ (∀ p q r : Peptidoform M,
       __eq__ p (PeptidoformObject q) = Ok true →
       __eq__ q (PeptidoformObject r) = Ok true →
       __eq__ p (PeptidoformObject r) = Ok true)
  ∧ (∀ p q : Peptidoform M,
       __eq__ p (PeptidoformObject q) = Ok true → __hash__ p = __hash__ q)
  ∧ (∀ (p : Peptidoform M) (o : pyobject M),
       (∃ e, __eq__ p o = Err e) ↔ o = ForeignObject None).
Proof.
  assert (∀ p q : Peptidoform M,
            __eq__ p (PeptidoformObject q) = Ok true
            ↔ proforma p = proforma q) as Heq.
  { intros p q. unfold __eq__. simpl. split.
    - intros [= Hb]. by apply bool_decide_eq_true in Hb.
    - intros Hpq. f_equal. by apply bool_decide_eq_true. }
  split; [|split; [|split; [|split]]].
  - intros p. by apply Heq.
  - intros p q. unfold __eq__. simpl. f_equal.
    apply bool_decide_ext. split; congruence.
  - intros p q r Hpq Hqr. apply Heq. apply Heq in Hpq, Hqr. congruence.
  - intros p q Hpq. apply Heq in Hpq. unfold __hash__. by rewrite Hpq.
  - intros p o. unfold __eq__. destruct o as [q|[v|]]; simpl.
    + split; [by intros [e He]|done].
    + split; [by intros [e He]|done].
    + split; [done|]. intros _. by eexists.
Qed.

Lemma equality_is_equivalence_witness :
  __eq__ ex_bare (PeptidoformObject ex_plain) = Ok false
  ∧ __hash__ ex_bare = __hash__ ex_bare'.
Proof.
  pose proof (@equality_is_equivalence Z _ _) as (_ & Hsym & _ & Hhash & _).
  split.
  - rewrite Hsym. reflexivity.
  - refine (Hhash ex_bare ex_bare' _). reflexivity.
Defined.

(** X17: the three outcomes of [theoretical_mz].  It returns [None]
    exactly when there is no charge or the charge is zero; a value it
    returns is [(m + h * c) / c] for a charge [c] other than zero, the
    theoretical mass [m] and the table's mass [h] of hydrogen-1, so it
    never divides by zero; and an exception comes from
    [theoretical_mass], or is the KeyError of a table without
    hydrogen-1 after the mass has been computed. *)
Theorem theoretical_mz_outcomes {M : Type} `{!MassArith M}
    `{!Environment M} (self : Peptidoform M) :
  (theoretical_mz self = Ok None
   ↔ precursor_charge self = None ∨ precursor_charge self = Some 0)
  ∧ (∀ x, theoretical_mz self = Ok (Some x) →
       ∃ c m h,
         precursor_charge self = Some c ∧ c ≠ 0
         ∧ theoretical_mass self = Ok m ∧ proton_mass = Ok h
         ∧ x = mdiv_int (madd m (mmul_int h c)) c)
  ∧ (∀ e, theoretical_mz self = Err e →
       ∃ c,
         precursor_charge self = Some c ∧ c ≠ 0
         ∧ (theoretical_mass self = Err e
            ∨ (is_Ok (theoretical_mass self) ∧ proton_mass = Err e
               ∧ exn_class e = KeyError))).
Proof.
  unfold theoretical_mz.
  destruct (precursor_charge self) as [c|]; [|by split; [split; auto|]].
  destruct (decide (c = 0)) as [->|Hc].
  { split; [split; auto|]. by split. }
  split; [|split].
  - split.
    + destruct (theoretical_mass self); simpl; [|done].
      by destruct proton_mass.
    + intros [|[= ->]]; done.
  - intros x Hx. apply bind_Ok in Hx as (m & Hm & Hx).
    apply bind_Ok in Hx as (h & Hh & [= <-]).
    by exists c, m, h.
  - intros e He. exists c. split; [done|]. split; [done|].
    destruct (theoretical_mass self) as [m|e'] eqn:Hm; simpl in He.
    + right. split; [by exists m|].
      destruct proton_mass as [h|e'] eqn:Hh; simpl in He; [done|].
      injection He as ->. split; [done|].
      unfold proton_mass in Hh.
      destruct (nist_mass !! "H") as [iso|]; [|by injection Hh as <-].
      destruct (iso !! 1); [done|]. by injection Hh as <-.
    + left. by injection He as ->.
Qed.

Lemma theoretical_mz_outcomes_witness :
  ∃ c m h,
    precursor_charge ex_many = Some c ∧ c ≠ 0
    ∧ theoretical_mass ex_many = Ok m ∧ proton_mass = Ok h
    ∧ 249073 = mdiv_int (madd m (mmul_int h c)) c.
Proof.
  refine (proj1 (proj2 (theoretical_mz_outcomes ex_many)) 249073 _).
  reflexivity.
Defined.

(** ** Peptidoforms without modifications, and the two code paths *)

Section PlainFacts.
Context {M : Type} `{!MassArith M} `{!Environment M}.
Context {V : Type}.
Variable what : string.
Variable v_add : V → V → V.
Variable tag_attr : ModificationTag M → result V.
Variable std_aa : gmap string V.
Variable n_start c_start : V.



Lemma Forall_iff_congr {A} (P Q : A → Prop) (l : list A) :
  Forall (λ x, P x ↔ Q x) l → (Forall P l ↔ Forall Q l).
Proof.
  intros Hl. induction Hl as [|x l Hx _ IH]; [by split; constructor|].
  rewrite !Forall_cons. by rewrite Hx, IH.
Qed.

End PlainFacts.



(** X19: when each tag of the peptidoform has a composition exactly when
    it has a mass, and each residue is in the composition table exactly
    when it is in the mass table, the composition accessors return
    exactly when the mass accessors return: the two code paths fail on
    the same peptidoforms. *)
Theorem composition_and_mass_return_together {M : Type} `{!MassArith M}
    `{!Environment M} (self : Peptidoform M) :
  Forall (λ tag, is_Ok (tag_composition tag) ↔ is_Ok (tag_mass tag))
    (local_tags self ++ sequence_wide_tags self) →
  Forall (λ rule, is_Ok (tag_composition (modification_tag rule))
                  ↔ is_Ok (tag_mass (modification_tag rule)))
    (default [] (fixed_modifications (properties self))) →
  Forall (λ pos : Position M,
            is_Some (std_aa_comp !! pos.1) ↔ is_Some (std_aa_mass !! pos.1))
    (parsed_sequence self) →
  (is_Ok (sequential_composition self)
   ↔ is_Ok (sequential_theoretical_mass self))
  ∧ (is_Ok (composition self) ↔ is_Ok (theoretical_mass self)).
Proof.
  intros Htags Hrules Hres. apply Forall_app in Htags as [Hlocal Hwide].
  assert (all_resolve tag_composition std_aa_comp self
          ↔ all_resolve tag_mass std_aa_mass self) as Hall.
  { unfold all_resolve.
    rewrite (Forall_iff_congr _ _ _ Hlocal), (Forall_iff_congr _ _ _ Hres).
    assert ((∃ rules,
               fixed_modifications (properties self) = Some rules
               ∧ Forall (λ rule, targets rule ≠ [] →
                    is_Ok (tag_composition (modification_tag rule))) rules)
            ↔ (∃ rules,
                 fixed_modifications (properties self) = Some rules
                 ∧ Forall (λ rule, targets rule ≠ [] →
                      is_Ok (tag_mass (modification_tag rule))) rules))
      as ->; [|done].
    destruct (fixed_modifications (properties self)) as [rules|];
      [|by split; intros (? & ? & ?)].
    simpl in Hrules.
    assert (Forall (λ rule, targets rule ≠ [] →
              is_Ok (tag_composition (modification_tag rule))) rules
            ↔ Forall (λ rule, targets rule ≠ [] →
                is_Ok (tag_mass (modification_tag rule))) rules) as Hr.
    { apply Forall_iff_congr. eapply Forall_impl; [exact Hrules|].
      intros rule Hrule. simpl. by rewrite Hrule. }
    split; intros (rules' & [= <-] & Hforall); exists rules;
      (split; [done|]); by apply Hr. }
  split.
  - unfold sequential_composition, sequential_theoretical_mass.
    by rewrite !sequential_returns.
  - unfold composition, theoretical_mass.
    rewrite !total_returns, Hall.
    by rewrite (Forall_iff_congr _ _ _ Hwide).
Qed.

Lemma composition_and_mass_return_together_witness :
  is_Ok (composition ex_many) ↔ is_Ok (theoretical_mass ex_many).
Proof.
  refine (proj2 (composition_and_mass_return_together ex_many _ _ _)).
  - repeat constructor; intros _; eexists; reflexivity.
  - repeat constructor; intros _; eexists; reflexivity.
  - repeat constructor; intros _; eexists; reflexivity.
Defined.

(** ** Text views *)

Lemma string_length_app (s1 s2 : string) :
  String.length (s1 +:+ s2) = (String.length s1 + String.length s2)%nat.
Proof. induction s1 as [|a s1 IH]; simpl; [done|]. by rewrite IH. Qed.

Lemma string_app_inv_tail (s t u : string) : s +:+ u = t +:+ u → s = t.
Proof.
  revert t. induction s as [|a s IH]; intros [|b t] Heq; simpl in Heq.
  - done.
  - apply (f_equal String.length) in Heq.
    rewrite !string_length_app in Heq. simpl in Heq. lia.
  - apply (f_equal String.length) in Heq.
    rewrite !string_length_app in Heq. simpl in Heq. lia.
  - injection Heq as -> Heq. f_equal. by apply IH.
Qed.

(** X20: [str] of a peptidoform is its canonical text and [repr] wraps
    that text in [Peptidoform('...')]; two peptidoforms have the same
    [repr] exactly when they have the same [str], which is exactly when
    they compare equal. *)
Theorem repr_equal_iff_equal {M : Type} `{!MassArith M}
    `{!Environment M} (p q : Peptidoform M) :
  __repr__ p = "Peptidoform('" +:+ __str__ p +:+ "')"
  ∧ (__repr__ p = __repr__ q ↔ __str__ p = __str__ q)
  ∧ (__str__ p = __str__ q ↔ __eq__ p (PeptidoformObject q) = Ok true).
Proof.
  split; [reflexivity|]. split.
  - unfold __repr__, __str__. split.
    + intros Heq. simpl in Heq. injection Heq as Heq.
      apply (string_app_inv_tail (proforma p) (proforma q) "')").
      exact Heq.
    + by intros ->.
  - unfold __str__, __eq__. simpl. split.
    + intros Heq. f_equal. by apply bool_decide_eq_true.
    + intros [= Hb]. by apply bool_decide_eq_true in Hb.
Qed.

Lemma repr_equal_iff_equal_witness : __repr__ ex_bare = __repr__ ex_bare'.
Proof.
  refine (proj2 (proj1 (proj2 (repr_equal_iff_equal ex_bare ex_bare'))) _).
  reflexivity.
Defined.

(** X21: the stripped sequence is the residue codes of the positions
    written one after the other, in sequence order; when every residue
    code is a single character, the characters of the stripped sequence
    are exactly the residue codes, position by position, and there is
    one character per position. *)
Theorem sequence_is_residue_codes {M : Type} `{!MassArith M}
    `{!Environment M} (self : Peptidoform M) :
  sequence self = foldr String.append "" (fst <$> parsed_sequence self)
  ∧ (Forall (λ pos : Position M, String.length pos.1 = 1%nat)
       (parsed_sequence self) →
     code_of_char <$> String.list_ascii_of_string (sequence self)
     = fst <$> parsed_sequence self
     ∧ String.length (sequence self) = length (parsed_sequence self)).
Proof.
  split; [apply sequence_fst|].
  unfold sequence. intros Hone.
  induction Hone as [|pos seq Hpos _ [IHc IHl]]; simpl; [done|].
  destruct pos as [aa tags]. simpl in *.
  destruct aa as [|c [|c' aa]]; simpl in Hpos; try discriminate Hpos.
  split.
  - change (code_of_char c
              :: (code_of_char
                    <$> String.list_ascii_of_string
                          (foldr (λ (pos : Position M) acc, pos.1 +:+ acc)
                             "" seq))
            = String c "" :: (fst <$> seq)).
    by rewrite IHc.
  - simpl. f_equal. exact IHl.
Qed.

Lemma sequence_is_residue_codes_witness :
  code_of_char <$> String.list_ascii_of_string (sequence ex_doc_plain)
  = fst <$> parsed_sequence ex_doc_plain
  ∧ String.length (sequence ex_doc_plain)
    = length (parsed_sequence ex_doc_plain).
Proof.
  refine (proj2 (sequence_is_residue_codes ex_doc_plain) _).
  repeat constructor.
Defined.
